(** * DUNE-DAQ dataformats: GeoID and TriggerRecordHeader

    A shallow embedding of [include/dataformats/GeoID.hpp],
    [include/dataformats/Types.hpp] and
    [include/dataformats/TriggerRecordHeader.hpp].

    The record class keeps a [void*] to one flat buffer (a header struct
    followed by an array of ComponentRequest objects) and a flag telling
    whether it owns that buffer.  The embedding therefore works on a byte
    level heap of blocks: [malloc], [free] and [memcpy] act on it, the
    accessors read and write little-endian integers at the offsets of the
    header fields (x86-64 layout), and every operation is a function from a
    heap to an outcome: a returned value, a thrown exception, or undefined
    behaviour (an access outside a live block, a null dereference, an invalid
    [free]). *)

From Stdlib Require Import ZArith Lia List Bool Ascii String.
From coqutil Require Import Byte Word.LittleEndianList.
From stdpp Require Import gmap list.

Local Open Scope Z_scope.

(* ===================================================================== *)
(** * GeoID.hpp *)
(* ===================================================================== *)

Module GeoID.

(** [struct GeoID]: two [uint32_t] fields, both defaulting to 0. *)
Record GeoID := mk {
  apa_number : Z;
  link_number : Z
}.

Definition default : GeoID := mk 0 0.

(** [std::tuple<uint32_t, uint32_t>::operator<]: the standard library's
    lexicographic comparison, element by element. *)
Definition tuple_lt (t u : Z * Z) : bool :=
  (fst t <? fst u) || (negb (fst u <? fst t) && (snd t <? snd u)).

(** [bool GeoID::operator<(const GeoID& other) const]. *)
Definition operator_lt (self other : GeoID) : bool :=
  tuple_lt (apa_number self, link_number self)
           (apa_number other, link_number other).

(** The order the documentation describes: first by [apa_number], then by
    [link_number]. *)
Definition lex_lt (a b : GeoID) : Prop :=
  apa_number a < apa_number b
  \/ (apa_number a = apa_number b /\ link_number a < link_number b).

End GeoID.

(* ===================================================================== *)
(** * Types.hpp *)
(* ===================================================================== *)

(** Exceptions an operation can raise.  [MemoryAllocationFailed] is the class
    of Types.hpp (file, line, number of bytes); [ErsIssue] is the "ERS error"
    the documentation of [at] and [operator[]] announces. *)
Inductive exn :=
| MemoryAllocationFailed (m_file : string) (m_line : Z) (m_bytes : Z)
| ErsIssue.

(** [TypeDefaults]: the "invalid" sentinels of the numeric aliases. *)
Module TypeDefaults.
Definition s_invalid_run_number : Z := 2 ^ 32 - 1.
Definition s_invalid_trigger_number : Z := 2 ^ 64 - 1.
Definition s_invalid_timestamp : Z := 2 ^ 64 - 1.
Definition s_invalid_trigger_type : Z := 2 ^ 16 - 1.
End TypeDefaults.

(** [size_t] arithmetic: 64 bits, wrapping. *)
Definition size_max : Z := 2 ^ 64.
Definition size_add (a b : Z) : Z := (a + b) mod size_max.
Definition size_mul (a b : Z) : Z := (a * b) mod size_max.

(* ===================================================================== *)
(** * The heap: blocks of bytes *)
(* ===================================================================== *)

Definition block := nat.

(** A [void*]: null, or a block and a byte offset into it. *)
Inductive pointer :=
| nullptr
| Addr (b : block) (ofs : Z).

Definition ptr_add (p : pointer) (k : Z) : pointer :=
  match p with
  | nullptr => nullptr
  | Addr b ofs => Addr b (ofs + k)
  end.

Infix "+ₚ" := ptr_add (at level 50, left associativity).

(** The live blocks and the number of bytes the allocator can still hand
    out. *)
Record heap := Heap {
  cells : gmap block (list byte);
  available : Z
}.

(** [n] bytes of [bs] from offset [ofs]; [None] when the range leaves [bs]. *)
Definition slice (ofs n : Z) (bs : list byte) : option (list byte) :=
  if (0 <=? ofs) && (0 <=? n) && (ofs + n <=? Z.of_nat (length bs))
  then Some (take (Z.to_nat n) (drop (Z.to_nat ofs) bs))
  else None.

(** [bs] with [new] written over it from offset [ofs]. *)
Definition splice (ofs : Z) (new bs : list byte) : option (list byte) :=
  if (0 <=? ofs) && (ofs + Z.of_nat (length new) <=? Z.of_nat (length bs))
  then Some (take (Z.to_nat ofs) bs ++ new
               ++ drop (Z.to_nat ofs + length new) bs)
  else None.

Definition read (h : heap) (p : pointer) (n : Z) : option (list byte) :=
  match p with
  | nullptr => None
  | Addr b ofs =>
      match cells h !! b with
      | Some bs => slice ofs n bs
      | None => None
      end
  end.

Definition write (h : heap) (p : pointer) (new : list byte) : option heap :=
  match p with
  | nullptr => None
  | Addr b ofs =>
      match cells h !! b with
      | Some bs =>
          match splice ofs new bs with
          | Some bs' => Some (Heap (<[b := bs']> (cells h)) (available h))
          | None => None
          end
      | None => None
      end
  end.

(** ** Outcomes and the monad of heap operations *)

Inductive outcome (A : Type) : Type :=
| Returns (a : A) (h : heap)
| Throws (e : exn) (h : heap)
| Undefined (h : heap).

Arguments Returns {A} a h.
Arguments Throws {A} e h.
Arguments Undefined {A} h.

Definition M (A : Type) : Type := heap -> outcome A.

Definition ret {A} (a : A) : M A := fun h => Returns a h.

Definition bind {A B} (c : M A) (k : A -> M B) : M B :=
  fun h =>
    match c h with
    | Returns a h' => k a h'
    | Throws e h' => Throws e h'
    | Undefined h' => Undefined h'
    end.

Notation "'let*' x ':=' c 'in' k" := (bind c (fun x => k))
  (at level 10, x pattern, c at level 100, k at level 200).

(** The value and the final heap of a run that returned. *)
Definition value_of {A} (o : outcome A) : option A :=
  match o with Returns a _ => Some a | _ => None end.

Definition heap_of {A} (o : outcome A) : heap :=
  match o with Returns _ h | Throws _ h | Undefined h => h end.

Definition throws {A} (o : outcome A) : bool :=
  match o with Throws _ _ => true | _ => false end.

(** An operation rejects its input in the heap [h] when it throws and the
    heap is still [h]: nothing was allocated, nothing was written. *)
Definition rejects {A} (o : outcome A) (h : heap) : Prop :=
  exists e, o = Throws e h.

(** ** libc *)

(** [malloc(size)]: a fresh block of [size] bytes, or a null pointer when the
    allocator cannot provide them.  The content of the new block is
    indeterminate in C; it is zero here, and both constructors overwrite every
    byte of what they allocate. *)
Definition malloc (size : Z) : M pointer :=
  fun h =>
    if size <=? available h then
      let b := fresh (dom (cells h)) in
      Returns (Addr b 0)
        (Heap (<[b := replicate (Z.to_nat size) Byte.x00]> (cells h))
              (available h - size))
    else Returns nullptr h.

(** [free(p)]: nothing for a null pointer; otherwise [p] has to be the start
    of a live block, which disappears. *)
Definition free (p : pointer) : M unit :=
  fun h =>
    match p with
    | nullptr => Returns tt h
    | Addr b ofs =>
        match cells h !! b with
        | Some bs =>
            if ofs =? 0
            then Returns tt (Heap (delete b (cells h))
                                  (available h + Z.of_nat (length bs)))
            else Undefined h
        | None => Undefined h
        end
    end.

Definition load_bytes (p : pointer) (n : Z) : M (list byte) :=
  fun h =>
    match read h p n with
    | Some bs => Returns bs h
    | None => Undefined h
    end.

Definition store_bytes (p : pointer) (bs : list byte) : M unit :=
  fun h =>
    match write h p bs with
    | Some h' => Returns tt h'
    | None => Undefined h
    end.

(** [memcpy(dst, src, n)] between two buffers of the heap.  Where the class
    calls it the destination is what [malloc] has just returned, so the two
    ranges do not overlap. *)
Definition memcpy (dst src : pointer) (n : Z) : M unit :=
  let* bs := load_bytes src n in
  store_bytes dst bs.

(** Reading and writing an unsigned integer of [n] bytes through a pointer
    (little-endian). *)
Definition load_uint (n : nat) (p : pointer) : M Z :=
  let* bs := load_bytes p (Z.of_nat n) in
  ret (le_combine bs).

Definition store_uint (n : nat) (p : pointer) (v : Z) : M unit :=
  store_bytes p (le_split n v).

(* ===================================================================== *)
(** * ComponentRequest.hpp *)
(* ===================================================================== *)

(** Modelled from the spec: ComponentRequest.hpp is not among the sources.
    The element type is "a fixed-size, trivially copyable record; its size
    and internal layout are supplied externally and are opaque to this
    component beyond sizeof(Element)".  An element type is thus any type with
    a size, an object representation of that many bytes, and the value read
    back from the representation of a value being that value. *)
Class TriviallyCopyable (T : Type) := {
  sizeof : nat;
  to_bytes : T -> list byte;
  from_bytes : list byte -> T;
  sizeof_pos : (0 < sizeof)%nat;
  to_bytes_length : forall x, length (to_bytes x) = sizeof;
  from_to_bytes : forall x, from_bytes (to_bytes x) = x
}.

(* ===================================================================== *)
(** * TriggerRecordHeader.hpp *)
(* ===================================================================== *)

Definition TRIGGER_RECORD_HEADER_MAGIC : Z := 0x33334444.
Definition TRIGGER_RECORD_HEADER_VERSION : Z := 1.

(** [struct TriggerRecordHeader::TriggerRecordHeaderData]. *)
Record TriggerRecordHeaderData := {
  trigger_record_header_marker : Z;   (* uint32_t *)
  version : Z;                        (* uint32_t *)
  trigger_number : Z;                 (* trigger_number_t = uint64_t *)
  trigger_timestamp : Z;              (* timestamp_t = uint64_t *)
  num_requested_components : Z;       (* uint64_t *)
  run_number : Z;                     (* run_number_t = uint32_t *)
  error_bits : Z;                     (* uint32_t *)
  trigger_type : Z;                   (* trigger_type_t = uint16_t *)
  unused : Z                          (* uint64_t : 48 *)
}.

(** Layout of the struct: every field at its natural alignment, the 48-bit
    field filling the 8-byte unit [trigger_type] starts. *)
Definition offsetof_trigger_record_header_marker : Z := 0.
Definition offsetof_version : Z := 4.
Definition offsetof_trigger_number : Z := 8.
Definition offsetof_trigger_timestamp : Z := 16.
Definition offsetof_num_requested_components : Z := 24.
Definition offsetof_run_number : Z := 32.
Definition offsetof_error_bits : Z := 36.
Definition offsetof_trigger_type : Z := 40.
Definition offsetof_unused : Z := 42.
Definition sizeof_TriggerRecordHeaderData : Z := 48.

(** Object representation of the struct. *)
Definition header_to_bytes (d : TriggerRecordHeaderData) : list byte :=
  le_split 4 (trigger_record_header_marker d)
  ++ le_split 4 (version d)
  ++ le_split 8 (trigger_number d)
  ++ le_split 8 (trigger_timestamp d)
  ++ le_split 8 (num_requested_components d)
  ++ le_split 4 (run_number d)
  ++ le_split 4 (error_bits d)
  ++ le_split 2 (trigger_type d)
  ++ le_split 6 (unused d).

Definition field (ofs : Z) (n : nat) (bs : list byte) : Z :=
  le_combine (take n (drop (Z.to_nat ofs) bs)).

Definition header_from_bytes (bs : list byte) : TriggerRecordHeaderData :=
  {| trigger_record_header_marker := field offsetof_trigger_record_header_marker 4 bs;
     version := field offsetof_version 4 bs;
     trigger_number := field offsetof_trigger_number 8 bs;
     trigger_timestamp := field offsetof_trigger_timestamp 8 bs;
     num_requested_components := field offsetof_num_requested_components 8 bs;
     run_number := field offsetof_run_number 4 bs;
     error_bits := field offsetof_error_bits 4 bs;
     trigger_type := field offsetof_trigger_type 2 bs;
     unused := field offsetof_unused 6 bs |}.

(** [TriggerRecordHeaderData header;] as a local variable: the members with a
    default member initializer ([trigger_record_header_marker], [version],
    [error_bits]) get it, the others keep whatever the storage of the
    variable held, given here as [indeterminate].  This is the struct nested
    in the class; the free-standing struct of TriggerRecordHeaderData.hpp,
    which zero-initialises the other members, is not the one the class
    uses. *)
Definition default_initialized (indeterminate : TriggerRecordHeaderData)
  : TriggerRecordHeaderData :=
  {| trigger_record_header_marker := TRIGGER_RECORD_HEADER_MAGIC;
     version := TRIGGER_RECORD_HEADER_VERSION;
     trigger_number := trigger_number indeterminate;
     trigger_timestamp := trigger_timestamp indeterminate;
     num_requested_components := num_requested_components indeterminate;
     run_number := run_number indeterminate;
     error_bits := 0;
     trigger_type := trigger_type indeterminate;
     unused := unused indeterminate |}.

Definition set_num_requested_components
  (d : TriggerRecordHeaderData) (n : Z) : TriggerRecordHeaderData :=
  {| trigger_record_header_marker := trigger_record_header_marker d;
     version := version d;
     trigger_number := trigger_number d;
     trigger_timestamp := trigger_timestamp d;
     num_requested_components := n;
     run_number := run_number d;
     error_bits := error_bits d;
     trigger_type := trigger_type d;
     unused := unused d |}.

(** A header as it reads back from its object representation: every field
    reduced to the width of its type. *)
Definition header_wrap (d : TriggerRecordHeaderData) : TriggerRecordHeaderData :=
  {| trigger_record_header_marker := trigger_record_header_marker d mod 2 ^ 32;
     version := version d mod 2 ^ 32;
     trigger_number := trigger_number d mod 2 ^ 64;
     trigger_timestamp := trigger_timestamp d mod 2 ^ 64;
     num_requested_components := num_requested_components d mod 2 ^ 64;
     run_number := run_number d mod 2 ^ 32;
     error_bits := error_bits d mod 2 ^ 32;
     trigger_type := trigger_type d mod 2 ^ 16;
     unused := unused d mod 2 ^ 48 |}.

(** [std::bitset<32>]: the value of its 32 bits.  [operator[]] does not check
    the position: a position of 32 or more is undefined behaviour ([None]). *)
Definition bitset_test (bits pos : Z) : option bool :=
  if (0 <=? pos) && (pos <? 32) then Some (Z.testbit bits pos) else None.

Definition bitset_assign (bits pos : Z) (value : bool) : option Z :=
  if (0 <=? pos) && (pos <? 32)
  then Some (if value then Z.setbit bits pos else Z.clearbit bits pos)
  else None.

Definition undefined_unless {A} (o : option A) : M A :=
  fun h => match o with Some a => Returns a h | None => Undefined h end.

(** The class: a pointer to the flat buffer and the ownership flag. *)
Record TriggerRecordHeader := {
  data_arr_ : pointer;
  alloc_ : bool
}.

(** Where an object lives; [operator=] compares [&other] with [this]. *)
Definition address := nat.

Section TriggerRecordHeader.

Context {ComponentRequest : Type} `{!TriviallyCopyable ComponentRequest}.

Definition sizeof_ComponentRequest : Z := Z.of_nat sizeof.

(** The loop of the first constructor: one [memcpy] of
    [sizeof(ComponentRequest)] bytes per component, at a growing offset. *)
Fixpoint copy_components (data_arr : pointer) (offset : Z)
  (components : list ComponentRequest) : M unit :=
  match components with
  | [] => ret tt
  | component :: rest =>
      let* _ := store_bytes (data_arr +ₚ offset) (to_bytes component) in
      copy_components data_arr (size_add offset sizeof_ComponentRequest) rest
  end.

(** [explicit TriggerRecordHeader(std::vector<ComponentRequest> components)].
    [indeterminate] is the content of the storage of the local [header]
    before its default initialisation. *)
Definition TriggerRecordHeader_from_components
  (components : list ComponentRequest)
  (indeterminate : TriggerRecordHeaderData) : M TriggerRecordHeader :=
  let size :=
    size_add sizeof_TriggerRecordHeaderData
      (size_mul (Z.of_nat (length components)) sizeof_ComponentRequest) in
  let* data_arr := malloc size in
  let alloc := true in
  let header :=
    set_num_requested_components (default_initialized indeterminate)
      (Z.of_nat (length components)) in
  (* memcpy(data_arr_, &header, sizeof(header)) *)
  let* _ := store_bytes data_arr (header_to_bytes header) in
  let offset := sizeof_TriggerRecordHeaderData in
  let* _ := copy_components data_arr offset components in
  ret {| data_arr_ := data_arr; alloc_ := alloc |}.

(** [explicit TriggerRecordHeader(void* existing_trigger_record_header_buffer,
    bool copy_from_buffer = false)]. *)
Definition TriggerRecordHeader_from_buffer
  (existing_trigger_record_header_buffer : pointer)
  (copy_from_buffer : bool) : M TriggerRecordHeader :=
  if negb copy_from_buffer then
    ret {| data_arr_ := existing_trigger_record_header_buffer;
           alloc_ := false |}
  else
    let header := existing_trigger_record_header_buffer in
    let* n := load_uint 8 (header +ₚ offsetof_num_requested_components) in
    let size :=
      size_add (size_mul n sizeof_ComponentRequest)
               sizeof_TriggerRecordHeaderData in
    let* data_arr := malloc size in
    let alloc := true in
    let* _ := memcpy data_arr existing_trigger_record_header_buffer size in
    ret {| data_arr_ := data_arr; alloc_ := alloc |}.

(** [TriggerRecordHeaderData* header_() const]. *)
Definition header_ (self : TriggerRecordHeader) : pointer := data_arr_ self.

Definition get_header (self : TriggerRecordHeader) : M TriggerRecordHeaderData :=
  let* bs := load_bytes (header_ self) sizeof_TriggerRecordHeaderData in
  ret (header_from_bytes bs).

Definition get_trigger_number (self : TriggerRecordHeader) : M Z :=
  load_uint 8 (header_ self +ₚ offsetof_trigger_number).

Definition set_trigger_number (self : TriggerRecordHeader) (v : Z) : M unit :=
  store_uint 8 (header_ self +ₚ offsetof_trigger_number) v.

Definition get_trigger_timestamp (self : TriggerRecordHeader) : M Z :=
  load_uint 8 (header_ self +ₚ offsetof_trigger_timestamp).

Definition set_trigger_timestamp (self : TriggerRecordHeader) (v : Z) : M unit :=
  store_uint 8 (header_ self +ₚ offsetof_trigger_timestamp) v.

Definition get_num_requested_components (self : TriggerRecordHeader) : M Z :=
  load_uint 8 (header_ self +ₚ offsetof_num_requested_components).

Definition get_run_number (self : TriggerRecordHeader) : M Z :=
  load_uint 4 (header_ self +ₚ offsetof_run_number).

Definition set_run_number (self : TriggerRecordHeader) (v : Z) : M unit :=
  store_uint 4 (header_ self +ₚ offsetof_run_number) v.

(** [std::bitset<32> get_error_bits() const]. *)
Definition get_error_bits (self : TriggerRecordHeader) : M Z :=
  load_uint 4 (header_ self +ₚ offsetof_error_bits).

(** [void set_error_bits(std::bitset<32> bits)]: [bits.to_ulong()] stored
    in the 32-bit field. *)
Definition set_error_bits (self : TriggerRecordHeader) (bits : Z) : M unit :=
  store_uint 4 (header_ self +ₚ offsetof_error_bits) bits.

Definition get_error_bit (self : TriggerRecordHeader) (bit : Z) : M bool :=
  let* bits := get_error_bits self in
  undefined_unless (bitset_test bits bit).

Definition set_error_bit (self : TriggerRecordHeader) (bit : Z) (value : bool)
  : M unit :=
  let* bits := get_error_bits self in
  let* bits := undefined_unless (bitset_assign bits bit value) in
  set_error_bits self bits.

Definition get_trigger_type (self : TriggerRecordHeader) : M Z :=
  load_uint 2 (header_ self +ₚ offsetof_trigger_type).

Definition set_trigger_type (self : TriggerRecordHeader) (v : Z) : M unit :=
  store_uint 2 (header_ self +ₚ offsetof_trigger_type) v.

Definition get_total_size_bytes (self : TriggerRecordHeader) : M Z :=
  let* n := load_uint 8 (header_ self +ₚ offsetof_num_requested_components) in
  ret (size_add (size_mul n sizeof_ComponentRequest)
                sizeof_TriggerRecordHeaderData).

Definition get_storage_location (self : TriggerRecordHeader) : pointer :=
  data_arr_ self.

(** [reinterpret_cast<ComponentRequest*>(header_() + 1) + idx]. *)
Definition component_ptr (self : TriggerRecordHeader) (idx : Z) : pointer :=
  (header_ self +ₚ sizeof_TriggerRecordHeaderData)
    +ₚ idx * sizeof_ComponentRequest.

(** [ComponentRequest at(size_t idx) const].  The body of the range test is
    a comment, so both branches go on to the read. *)
Definition at_ (self : TriggerRecordHeader) (idx : Z) : M ComponentRequest :=
  let* n := load_uint 8 (header_ self +ₚ offsetof_num_requested_components) in
  let* _ := (if n <=? idx then (* Throw ERS exception *) ret tt else ret tt) in
  let* bs := load_bytes (component_ptr self idx) sizeof_ComponentRequest in
  ret (from_bytes bs).

(** [ComponentRequest& operator[](size_t idx)]: the reference is the address
    of the element, which has to designate [sizeof(ComponentRequest)] bytes
    of a live block. *)
Definition operator_index (self : TriggerRecordHeader) (idx : Z) : M pointer :=
  let* n := load_uint 8 (header_ self +ₚ offsetof_num_requested_components) in
  let* _ := (if n <=? idx then (* Throw ERS exception *) ret tt else ret tt) in
  let* _ := load_bytes (component_ptr self idx) sizeof_ComponentRequest in
  ret (component_ptr self idx).

(** Assignment through a [ComponentRequest&]. *)
Definition assign_component (ref : pointer) (c : ComponentRequest) : M unit :=
  store_bytes ref (to_bytes c).

(** [TriggerRecordHeader(TriggerRecordHeader const& other)]. *)
Definition TriggerRecordHeader_copy (other : TriggerRecordHeader)
  : M TriggerRecordHeader :=
  TriggerRecordHeader_from_buffer (data_arr_ other) true.

(** [TriggerRecordHeader& operator=(TriggerRecordHeader const& other)]:
    the new state of [*this]. *)
Definition operator_assign (this : address) (self : TriggerRecordHeader)
  (other_addr : address) (other : TriggerRecordHeader) : M TriggerRecordHeader :=
  if Nat.eqb other_addr this then ret self
  else
    let* size := get_total_size_bytes other in
    let* data_arr := malloc size in
    let alloc := true in
    let* size' := get_total_size_bytes other in
    let* _ := memcpy data_arr (data_arr_ other) size' in
    ret {| data_arr_ := data_arr; alloc_ := alloc |}.

(** [~TriggerRecordHeader()]. *)
Definition destructor (self : TriggerRecordHeader) : M unit :=
  if alloc_ self then free (data_arr_ self) else ret tt.

(** The ways a caller changes a record: the setters, and an assignment
    through the reference [operator[]] returns. *)
Inductive mutation : Type :=
| SetTriggerNumber (v : Z)
| SetTriggerTimestamp (v : Z)
| SetRunNumber (v : Z)
| SetErrorBits (bits : Z)
| SetErrorBit (bit : Z) (value : bool)
| SetTriggerType (v : Z)
| AssignComponent (idx : Z) (c : ComponentRequest).

Definition mutate (self : TriggerRecordHeader) (m : mutation) : M unit :=
  match m with
  | SetTriggerNumber v => set_trigger_number self v
  | SetTriggerTimestamp v => set_trigger_timestamp self v
  | SetRunNumber v => set_run_number self v
  | SetErrorBits bits => set_error_bits self bits
  | SetErrorBit bit value => set_error_bit self bit value
  | SetTriggerType v => set_trigger_type self v
  | AssignComponent idx c =>
      let* ref := operator_index self idx in
      assign_component ref c
  end.

(** The mutations a caller may apply to a record of [n] components: a bit
    position below 32, an element index below the count. *)
Definition applicable (n : Z) (m : mutation) : bool :=
  match m with
  | SetErrorBit bit _ => (0 <=? bit) && (bit <? 32)
  | AssignComponent idx _ => (0 <=? idx) && (idx <? n)
  | _ => true
  end.

(** The size in bytes of a record of [n] components, as a number (no
    wrap-around). *)
Definition total_size (n : Z) : Z :=
  sizeof_TriggerRecordHeaderData + n * sizeof_ComponentRequest.

(** A record is valid in a heap when its buffer holds the header and the
    number of components the header announces, and that size is a
    [size_t]. *)
Definition valid (h : heap) (self : TriggerRecordHeader) : bool :=
  match read h (data_arr_ self) sizeof_TriggerRecordHeaderData with
  | Some bs =>
      let n := num_requested_components (header_from_bytes bs) in
      (total_size n <? size_max)
      && match read h (data_arr_ self) (total_size n) with
         | Some _ => true
         | None => false
         end
  | None => false
  end.

End TriggerRecordHeader.

(* ===================================================================== *)
(** * A stub element type and concrete heaps for the examples *)
(* ===================================================================== *)

(** A fixed-size element of two bytes. *)
Record StubRequest := {
  stub_region : byte;
  stub_window : byte
}.

#[export] Instance StubRequest_copyable : TriviallyCopyable StubRequest := {|
  sizeof := 2;
  to_bytes := fun x => [stub_region x; stub_window x];
  from_bytes := fun bs =>
    {| stub_region := List.nth 0 bs Byte.x00;
       stub_window := List.nth 1 bs Byte.x00 |};
  sizeof_pos := ltac:(lia);
  to_bytes_length := fun x => eq_refl;
  from_to_bytes := fun x => match x with Build_StubRequest _ _ => eq_refl end
|}.

Definition stub (a b : byte) : StubRequest :=
  {| stub_region := a; stub_window := b |}.

(** A heap with no block and room for 1024 bytes, one with no room at all. *)
Definition empty_heap : heap := Heap ∅ 1024.
Definition exhausted_heap : heap := Heap ∅ 0.

(** Storage of a local header before initialisation, with recognisable
    values. *)
Definition stack_garbage : TriggerRecordHeaderData :=
  {| trigger_record_header_marker := 0xdeadbeef;
     version := 0xffffffff;
     trigger_number := 0x1111111111111111;
     trigger_timestamp := 0x2222222222222222;
     num_requested_components := 0x3333333333333333;
     run_number := 0x44444444;
     error_bits := 0x55555555;
     trigger_type := 0x6666;
     unused := 0x777777777777 |}.

(** A caller's buffer of 52 bytes in block 0: a header announcing one
    component, then two components' worth of bytes. *)
Definition two_in_one_header : TriggerRecordHeaderData :=
  set_num_requested_components (default_initialized stack_garbage) 1.

Definition two_in_one_heap : heap :=
  Heap {[ 0%nat := header_to_bytes two_in_one_header
                   ++ to_bytes (stub Byte.x0a Byte.x0b)
                   ++ to_bytes (stub Byte.x0c Byte.x0d) ]} 1024.

(** A caller's buffer of 48 bytes in block 0: a header announcing one
    component and nothing behind it. *)
Definition truncated_heap : heap :=
  Heap {[ 0%nat := header_to_bytes two_in_one_header ]} 1024.

(** The caller's 52-byte buffer when the allocator has nothing left. *)
Definition two_in_one_exhausted : heap := Heap (cells two_in_one_heap) 0.

(** The record that borrows the caller's buffer in block 0. *)
Definition borrowing : TriggerRecordHeader :=
  {| data_arr_ := Addr 0%nat 0; alloc_ := false |}.

(* ===================================================================== *)
(** * Moves, and the effect of a mutation on the header struct *)
(* ===================================================================== *)

(** [TriggerRecordHeader(TriggerRecordHeader&&) = default]: a memberwise
    move, which for a [void*] and a [bool] is a copy.  The result is the new
    object and the source as the move leaves it. *)
Definition TriggerRecordHeader_move (other : TriggerRecordHeader)
  : TriggerRecordHeader * TriggerRecordHeader :=
  ({| data_arr_ := data_arr_ other; alloc_ := alloc_ other |}, other).

(** [TriggerRecordHeader& operator=(TriggerRecordHeader&&) = default]: the
    new state of [*this] and the source; what [*this] held is overwritten. *)
Definition operator_move_assign (self other : TriggerRecordHeader)
  : TriggerRecordHeader * TriggerRecordHeader :=
  ({| data_arr_ := data_arr_ other; alloc_ := alloc_ other |}, other).

Definition with_trigger_number (d : TriggerRecordHeaderData) (v : Z)
  : TriggerRecordHeaderData :=
  {| trigger_record_header_marker := trigger_record_header_marker d;
     version := version d;
     trigger_number := v;
     trigger_timestamp := trigger_timestamp d;
     num_requested_components := num_requested_components d;
     run_number := run_number d;
     error_bits := error_bits d;
     trigger_type := trigger_type d;
     unused := unused d |}.

Definition with_trigger_timestamp (d : TriggerRecordHeaderData) (v : Z)
  : TriggerRecordHeaderData :=
  {| trigger_record_header_marker := trigger_record_header_marker d;
     version := version d;
     trigger_number := trigger_number d;
     trigger_timestamp := v;
     num_requested_components := num_requested_components d;
     run_number := run_number d;
     error_bits := error_bits d;
     trigger_type := trigger_type d;
     unused := unused d |}.

Definition with_run_number (d : TriggerRecordHeaderData) (v : Z)
  : TriggerRecordHeaderData :=
  {| trigger_record_header_marker := trigger_record_header_marker d;
     version := version d;
     trigger_number := trigger_number d;
     trigger_timestamp := trigger_timestamp d;
     num_requested_components := num_requested_components d;
     run_number := v;
     error_bits := error_bits d;
     trigger_type := trigger_type d;
     unused := unused d |}.

Definition with_error_bits (d : TriggerRecordHeaderData) (v : Z)
  : TriggerRecordHeaderData :=
  {| trigger_record_header_marker := trigger_record_header_marker d;
     version := version d;
     trigger_number := trigger_number d;
     trigger_timestamp := trigger_timestamp d;
     num_requested_components := num_requested_components d;
     run_number := run_number d;
     error_bits := v;
     trigger_type := trigger_type d;
     unused := unused d |}.

Definition with_trigger_type (d : TriggerRecordHeaderData) (v : Z)
  : TriggerRecordHeaderData :=
  {| trigger_record_header_marker := trigger_record_header_marker d;
     version := version d;
     trigger_number := trigger_number d;
     trigger_timestamp := trigger_timestamp d;
     num_requested_components := num_requested_components d;
     run_number := run_number d;
     error_bits := error_bits d;
     trigger_type := v;
     unused := unused d |}.

Section HeaderAfter.

Context {ComponentRequest : Type}.

(** What a mutation does when read as an assignment to a member of the
    header struct; the value is converted to the type of the member. *)
Definition header_after (m : @mutation ComponentRequest)
  (d : TriggerRecordHeaderData)
  : TriggerRecordHeaderData :=
  match m with
  | SetTriggerNumber v => with_trigger_number d (v mod 2 ^ 64)
  | SetTriggerTimestamp v => with_trigger_timestamp d (v mod 2 ^ 64)
  | SetRunNumber v => with_run_number d (v mod 2 ^ 32)
  | SetErrorBits bits => with_error_bits d (bits mod 2 ^ 32)
  | SetErrorBit bit value =>
      with_error_bits d
        (if value then Z.setbit (error_bits d) bit
         else Z.clearbit (error_bits d) bit)
  | SetTriggerType v => with_trigger_type d (v mod 2 ^ 16)
  | AssignComponent _ _ => d
  end.

End HeaderAfter.

(* ===================================================================== *)
(** * Output streams: operator<< *)
(* ===================================================================== *)

Module ios.
(** [std::ios_base::basefield]. *)
Inductive basefield := oct | dec | hex.

Definition radix (b : basefield) : Z :=
  match b with oct => 8 | dec => 10 | hex => 16 end.
End ios.

(** A [std::ostream] as far as the operators here use it: the characters
    written so far and the base integers are written in.  The other format
    flags (width, fill, showbase, uppercase, showpos) are taken at their
    defaults and the stream is taken to be good. *)
Record ostream := {
  content : list ascii;
  basefield : ios.basefield
}.

Definition digit_chars : list ascii := list_ascii_of_string "0123456789abcdef".

Definition digit_char (d : Z) : ascii :=
  List.nth (Z.to_nat d) digit_chars "0"%char.

(** The digits of [n] in base [base], most significant first. *)
Fixpoint digits_from (fuel : nat) (base n : Z) (acc : list Z) : list Z :=
  match fuel with
  | O => acc
  | S fuel' =>
      if n <? base then n :: acc
      else digits_from fuel' base (n / base) (n mod base :: acc)
  end.

Definition digits (base n : Z) : list Z :=
  digits_from (S (Z.to_nat (Z.log2 n))) base n [].

Definition numeral (base n : Z) : list ascii :=
  map digit_char (digits base n).

(** The number a list of digits stands for. *)
Definition digits_value (base : Z) (ds : list Z) : Z :=
  fold_left (fun a d => a * base + d) ds 0.


(** [o << "..."]. *)
Definition put_chars (o : ostream) (s : string) : ostream :=
  {| content := content o ++ list_ascii_of_string s;
     basefield := basefield o |}.

(** [o << v] for an unsigned integer type. *)
Definition put_unsigned (o : ostream) (v : Z) : ostream :=
  {| content := content o ++ numeral (ios.radix (basefield o)) v;
     basefield := basefield o |}.


(** [std::ostream& operator<<(std::ostream& o, GeoID const& id)]. *)
Definition GeoID_operator_shl (o : ostream) (id : GeoID.GeoID) : ostream :=
  put_unsigned
    (put_chars
       (put_unsigned (put_chars o "APA: ") (GeoID.apa_number id))
       ", link: ")
    (GeoID.link_number id).



(** [std::to_string] of an [int] and of a [size_t]. *)
Definition to_string_int (v : Z) : list ascii :=
  if v <? 0 then "-"%char :: numeral 10 (- v) else numeral 10 v.

Definition to_string_size_t (v : Z) : list ascii := numeral 10 v.

(** [MemoryAllocationFailed::what()]: the message the constructor builds in
    [m_what]. *)
Definition MemoryAllocationFailed_what (m_file : string) (m_line m_bytes : Z)
  : list ascii :=
  list_ascii_of_string m_file
  ++ list_ascii_of_string ":"
  ++ to_string_int m_line
  ++ list_ascii_of_string ": Malloc of "
  ++ to_string_size_t m_bytes
  ++ list_ascii_of_string " bytes failed".


Definition hex_stream : ostream := {| content := []; basefield := ios.hex |}.

(* ===================================================================== *)
(** * Slices of byte lists *)
(* ===================================================================== *)

Section Slices.

Implicit Types bs new s : list byte.

Lemma slice_Some ofs n bs s :
  slice ofs n bs = Some s <->
  0 <= ofs /\ 0 <= n /\ ofs + n <= Z.of_nat (length bs)
  /\ s = take (Z.to_nat n) (drop (Z.to_nat ofs) bs).
Proof.
  unfold slice.
  destruct (0 <=? ofs) eqn:Ho; destruct (0 <=? n) eqn:Hn;
    destruct (ofs + n <=? Z.of_nat (length bs)) eqn:Hl; simpl;
    split; try discriminate; try lia.
  - intros [= <-]. repeat split; lia.
  - intros (_ & _ & _ & ->). reflexivity.
Qed.

Lemma slice_ok ofs n bs :
  0 <= ofs -> 0 <= n -> ofs + n <= Z.of_nat (length bs) ->
  slice ofs n bs = Some (take (Z.to_nat n) (drop (Z.to_nat ofs) bs)).
Proof. intros. apply slice_Some. repeat split; lia. Qed.

Lemma slice_None ofs n bs :
  Z.of_nat (length bs) < ofs + n -> slice ofs n bs = None.
Proof.
  intros H. unfold slice.
  replace (ofs + n <=? Z.of_nat (length bs)) with false by lia.
  rewrite andb_false_r. reflexivity.
Qed.

Lemma slice_length ofs n bs s :
  slice ofs n bs = Some s -> Z.of_nat (length s) = n.
Proof.
  intros (Ho & Hn & Hl & ->)%slice_Some.
  rewrite length_take, length_drop. lia.
Qed.

Lemma slice_all bs : slice 0 (Z.of_nat (length bs)) bs = Some bs.
Proof.
  rewrite slice_ok by lia. rewrite Nat2Z.id. simpl.
  rewrite drop_0, take_ge; [reflexivity | lia].
Qed.

(** A slice of a slice is a slice of the whole. *)
Lemma slice_slice ofs n bs s o k :
  slice ofs n bs = Some s -> 0 <= o -> 0 <= k -> o + k <= n ->
  slice (ofs + o) k bs = slice o k s.
Proof.
  intros Hs Ho Hk Hok.
  pose proof (slice_length _ _ _ _ Hs) as Hlen.
  apply slice_Some in Hs as (H0 & Hn & Hl & ->).
  rewrite !slice_ok by lia. f_equal.
  apply list_eq. intros i.
  destruct (decide (i < Z.to_nat k)%nat) as [Hi | Hi].
  - rewrite !lookup_take_lt, !lookup_drop by lia.
    rewrite lookup_take_lt, lookup_drop by lia. f_equal. lia.
  - rewrite !lookup_take_ge by lia. reflexivity.
Qed.

Lemma slice_app_l ofs n bs rest :
  ofs + n <= Z.of_nat (length bs) ->
  slice ofs n (bs ++ rest) = slice ofs n bs.
Proof.
  intros H.
  destruct (Z_lt_le_dec ofs 0);
    [unfold slice; replace (0 <=? ofs) with false by lia; reflexivity |].
  destruct (Z_lt_le_dec n 0);
    [unfold slice; replace (0 <=? n) with false by lia;
     rewrite andb_false_r; reflexivity |].
  rewrite !slice_ok by (rewrite ?length_app; lia). f_equal.
  rewrite drop_app_le by lia.
  rewrite take_app_le; [reflexivity | rewrite length_drop; lia].
Qed.

Lemma slice_app_r ofs n pre bs :
  0 <= ofs ->
  slice (Z.of_nat (length pre) + ofs) n (pre ++ bs) = slice ofs n bs.
Proof.
  intros H.
  destruct (Z_lt_le_dec n 0);
    [unfold slice; replace (0 <=? n) with false by lia;
     rewrite !andb_false_r; reflexivity |].
  destruct (Z_lt_le_dec (Z.of_nat (length bs)) (ofs + n)).
  - rewrite !slice_None; [reflexivity | lia | rewrite length_app; lia].
  - rewrite !slice_ok by (rewrite ?length_app; lia). f_equal. f_equal.
    replace (Z.to_nat (Z.of_nat (length pre) + ofs))
      with (length pre + Z.to_nat ofs)%nat by lia.
    rewrite drop_app_add. reflexivity.
Qed.

Lemma splice_Some ofs new bs bs' :
  splice ofs new bs = Some bs' <->
  0 <= ofs /\ ofs + Z.of_nat (length new) <= Z.of_nat (length bs)
  /\ bs' = take (Z.to_nat ofs) bs ++ new
             ++ drop (Z.to_nat ofs + length new) bs.
Proof.
  unfold splice.
  destruct (0 <=? ofs) eqn:Ho;
    destruct (ofs + Z.of_nat (length new) <=? Z.of_nat (length bs)) eqn:Hl;
    simpl; split; try discriminate; try lia.
  - intros [= <-]. repeat split; lia.
  - intros (_ & _ & ->). reflexivity.
Qed.

Lemma splice_ok ofs new bs :
  0 <= ofs -> ofs + Z.of_nat (length new) <= Z.of_nat (length bs) ->
  splice ofs new bs
  = Some (take (Z.to_nat ofs) bs ++ new
            ++ drop (Z.to_nat ofs + length new) bs).
Proof. intros. apply splice_Some. repeat split; lia. Qed.

Lemma splice_length ofs new bs bs' :
  splice ofs new bs = Some bs' -> length bs' = length bs.
Proof.
  intros (Ho & Hl & ->)%splice_Some.
  rewrite !length_app, length_take, length_drop. lia.
Qed.

(** Writing a whole buffer replaces it. *)
Lemma splice_all new bs :
  length new = length bs -> splice 0 new bs = Some new.
Proof.
  intros H. rewrite splice_ok by lia. simpl.
  rewrite drop_ge by lia. rewrite app_nil_r. reflexivity.
Qed.

(** Writing behind a prefix keeps the prefix and what follows the written
    bytes. *)
Lemma splice_app pre new post :
  (length new <= length post)%nat ->
  splice (Z.of_nat (length pre)) new (pre ++ post)
  = Some (pre ++ new ++ drop (length new) post).
Proof.
  intros H. rewrite splice_ok by (rewrite ?length_app; lia).
  rewrite Nat2Z.id, take_app_length.
  rewrite drop_app_add. reflexivity.
Qed.

Lemma lookup_splice (o : nat) new bs (i : nat) :
  (o + length new <= length bs)%nat ->
  (take o bs ++ new ++ drop (o + length new) bs) !! i
  = if decide (i < o)%nat then bs !! i
    else if decide (i < o + length new)%nat then new !! (i - o)%nat
    else bs !! i.
Proof.
  intros H.
  assert (length (take o bs) = o) as Ht by (rewrite length_take; lia).
  destruct (decide (i < o)%nat).
  - rewrite lookup_app_l by lia. apply lookup_take_lt. lia.
  - rewrite lookup_app_r by lia. rewrite Ht.
    destruct (decide (i < o + length new)%nat).
    + rewrite lookup_app_l by lia. reflexivity.
    + rewrite lookup_app_r by lia. rewrite lookup_drop. f_equal. lia.
Qed.

(** Reading back what was written. *)
Lemma slice_splice_same ofs new bs bs' :
  splice ofs new bs = Some bs' ->
  slice ofs (Z.of_nat (length new)) bs' = Some new.
Proof.
  intros H. pose proof (splice_length _ _ _ _ H) as Hlen.
  apply splice_Some in H as (Ho & Hl & ->).
  rewrite slice_ok by lia. f_equal.
  rewrite Nat2Z.id.
  rewrite drop_app_length' by (rewrite length_take; lia).
  apply take_app_length.
Qed.

(** A range the write did not touch reads as before. *)
Lemma slice_splice_disjoint ofs new bs bs' o n :
  splice ofs new bs = Some bs' ->
  o + n <= ofs \/ ofs + Z.of_nat (length new) <= o ->
  slice o n bs' = slice o n bs.
Proof.
  intros H Hd. pose proof (splice_length _ _ _ _ H) as Hlen.
  apply splice_Some in H as (Ho & Hl & Hbs').
  unfold slice. rewrite Hlen.
  destruct (_ && _ && _) eqn:Hc; [| reflexivity].
  f_equal. apply list_eq. intros i.
  destruct (decide (i < Z.to_nat n)%nat) as [Hi | Hi].
  - rewrite !lookup_take_lt, !lookup_drop by lia.
    subst bs'. rewrite lookup_splice by lia.
    repeat case_decide; try reflexivity; lia.
  - rewrite !lookup_take_ge by lia. reflexivity.
Qed.

End Slices.

(* ===================================================================== *)
(** * Reads and writes of the heap *)
(* ===================================================================== *)

Section Heap.

Implicit Types (h : heap) (p : pointer) (bs new s : list byte).

Lemma heap_eta h : Heap (cells h) (available h) = h.
Proof. destruct h; reflexivity. Qed.

Lemma read_length h p n s : read h p n = Some s -> Z.of_nat (length s) = n.
Proof.
  destruct p as [| b ofs]; simpl; [discriminate |].
  destruct (cells h !! b); [apply slice_length | discriminate].
Qed.

(** A read inside a range that was read is a slice of that read. *)
Lemma read_ptr_add h p n s o k :
  read h p n = Some s -> 0 <= o -> 0 <= k -> o + k <= n ->
  read h (p +ₚ o) k = slice o k s.
Proof.
  destruct p as [| b ofs]; simpl; [discriminate |].
  destruct (cells h !! b); [| discriminate].
  intros. eapply slice_slice; eassumption.
Qed.

Lemma read_ptr_add_ok h p n s o k :
  read h p n = Some s -> 0 <= o -> 0 <= k -> o + k <= n ->
  read h (p +ₚ o) k = Some (take (Z.to_nat k) (drop (Z.to_nat o) s)).
Proof.
  intros H Ho Hk Hok. rewrite (read_ptr_add _ _ _ _ _ _ H Ho Hk Hok).
  apply slice_ok; try lia. apply read_length in H. lia.
Qed.

Lemma read_prefix h p n s k :
  read h p n = Some s -> 0 <= k <= n ->
  read h p k = Some (take (Z.to_nat k) s).
Proof.
  intros H Hk.
  pose proof (read_ptr_add_ok h p n s 0 k H) as R.
  destruct p as [| b ofs]; [discriminate |].
  simpl in R. rewrite Z.add_0_r, drop_0 in R. apply R; lia.
Qed.

Lemma write_inv h b ofs new h' :
  write h (Addr b ofs) new = Some h' ->
  exists bs bs',
    cells h !! b = Some bs /\ splice ofs new bs = Some bs'
    /\ h' = Heap (<[b := bs']> (cells h)) (available h).
Proof.
  simpl. destruct (cells h !! b) as [bs |]; [| discriminate].
  destruct (splice ofs new bs) as [bs' |] eqn:E; [| discriminate].
  intros [= <-]. eauto.
Qed.

(** A write succeeds exactly where a read of the same length does. *)
Lemma write_ok h p new s :
  read h p (Z.of_nat (length new)) = Some s -> is_Some (write h p new).
Proof.
  destruct p as [| b ofs]; simpl; [discriminate |].
  destruct (cells h !! b) as [bs |]; [| discriminate].
  intros (Ho & _ & Hl & _)%slice_Some.
  rewrite splice_ok by lia. eauto.
Qed.

Lemma write_read_same h p new h' :
  write h p new = Some h' -> read h' p (Z.of_nat (length new)) = Some new.
Proof.
  destruct p as [| b ofs]; [discriminate |].
  intros (bs & bs' & Hb & Hs & ->)%write_inv. simpl.
  rewrite lookup_insert_eq. eapply slice_splice_same; eassumption.
Qed.

Lemma write_read_disjoint h b ofs new h' o n :
  write h (Addr b ofs) new = Some h' ->
  o + n <= ofs \/ ofs + Z.of_nat (length new) <= o ->
  read h' (Addr b o) n = read h (Addr b o) n.
Proof.
  intros (bs & bs' & Hb & Hs & ->)%write_inv Hd. simpl.
  rewrite lookup_insert_eq, Hb. eapply slice_splice_disjoint; eassumption.
Qed.

Lemma write_cells_other h b ofs new h' b' :
  write h (Addr b ofs) new = Some h' -> b' <> b ->
  cells h' !! b' = cells h !! b'.
Proof.
  intros (bs & bs' & Hb & Hs & ->)%write_inv Hne. simpl.
  apply lookup_insert_ne. congruence.
Qed.

(** The block [malloc] returns is not one of the live blocks. *)
Lemma fresh_block h : cells h !! fresh (dom (cells h)) = None.
Proof. apply not_elem_of_dom. apply is_fresh. Qed.

Lemma malloc_ok size h :
  size <= available h ->
  malloc size h
  = Returns (Addr (fresh (dom (cells h))) 0)
      (Heap (<[fresh (dom (cells h)) := replicate (Z.to_nat size) Byte.x00]>
               (cells h))
            (available h - size)).
Proof.
  intros H. unfold malloc. replace (size <=? available h) with true by lia.
  reflexivity.
Qed.

Lemma malloc_fails size h :
  available h < size -> malloc size h = Returns nullptr h.
Proof.
  intros H. unfold malloc. replace (size <=? available h) with false by lia.
  reflexivity.
Qed.

(** Adding a block leaves the reads of the live blocks as they were. *)
Lemma read_insert_fresh h b bs a p n s :
  cells h !! b = None -> read h p n = Some s ->
  read (Heap (<[b := bs]> (cells h)) a) p n = Some s.
Proof.
  intros Hb. destruct p as [| b' ofs]; simpl; [discriminate |].
  destruct (decide (b' = b)) as [-> | Hne].
  - rewrite Hb. discriminate.
  - rewrite lookup_insert_ne by congruence. trivial.
Qed.

Lemma read_block (m : gmap block (list byte)) b bs a o n :
  read (Heap (<[b := bs]> m) a) (Addr b o) n = slice o n bs.
Proof. simpl. rewrite lookup_insert_eq. reflexivity. Qed.

Lemma load_bytes_read h p n s :
  read h p n = Some s -> load_bytes p n h = Returns s h.
Proof. intros H. unfold load_bytes. rewrite H. reflexivity. Qed.

Lemma load_uint_read h p (n : nat) s :
  read h p (Z.of_nat n) = Some s -> load_uint n p h = Returns (le_combine s) h.
Proof.
  intros H. unfold load_uint, bind. rewrite (load_bytes_read _ _ _ _ H).
  reflexivity.
Qed.

Lemma store_bytes_write h p new h' :
  write h p new = Some h' -> store_bytes p new h = Returns tt h'.
Proof. intros H. unfold store_bytes. rewrite H. reflexivity. Qed.

(** A field of a header that can be read. *)
Lemma load_field h p hb o (n : nat) :
  read h p sizeof_TriggerRecordHeaderData = Some hb ->
  0 <= o -> o + Z.of_nat n <= sizeof_TriggerRecordHeaderData ->
  load_uint n (p +ₚ o) h = Returns (field o n hb) h.
Proof.
  intros H Ho Hn. apply load_uint_read.
  rewrite (read_ptr_add_ok _ _ _ _ o (Z.of_nat n) H) by lia.
  rewrite Nat2Z.id. reflexivity.
Qed.

End Heap.

(* ===================================================================== *)
(** * GeoID: the order *)
(* ===================================================================== *)

Lemma GeoID_operator_lt_spec (a b : GeoID.GeoID) :
  GeoID.operator_lt a b = true <-> GeoID.lex_lt a b.
Proof.
  unfold GeoID.operator_lt, GeoID.tuple_lt, GeoID.lex_lt. simpl.
  rewrite orb_true_iff, andb_true_iff, negb_true_iff, !Z.ltb_lt, Z.ltb_ge.
  lia.
Qed.

(** C8: [operator<] of GeoID is the strict lexicographic order on
    (apa_number, link_number); it is irreflexive, transitive and total over
    distinct values, and GeoID{1,5} < GeoID{1,6} < GeoID{2,0} while
    GeoID{3,1} is not less than itself. *)
Theorem C8_GeoID_strict_total_order :
  (forall a b, GeoID.operator_lt a b = true <-> GeoID.lex_lt a b)
  /\ (forall a, GeoID.operator_lt a a = false)
  /\ (forall a b c,
        GeoID.operator_lt a b = true -> GeoID.operator_lt b c = true ->
        GeoID.operator_lt a c = true)
  /\ (forall a b,
        a <> b -> GeoID.operator_lt a b = true \/ GeoID.operator_lt b a = true)
  /\ GeoID.operator_lt (GeoID.mk 1 5) (GeoID.mk 1 6) = true
  /\ GeoID.operator_lt (GeoID.mk 1 6) (GeoID.mk 2 0) = true
  /\ GeoID.operator_lt (GeoID.mk 3 1) (GeoID.mk 3 1) = false.
Proof.
  split; [exact GeoID_operator_lt_spec |].
  split.
  { intros a. apply not_true_iff_false. rewrite GeoID_operator_lt_spec.
    unfold GeoID.lex_lt. lia. }
  split.
  { intros a b c. rewrite !GeoID_operator_lt_spec. unfold GeoID.lex_lt. lia. }
  split.
  { intros [a0 a1] [b0 b1] Hne. rewrite !GeoID_operator_lt_spec.
    unfold GeoID.lex_lt. simpl.
    assert (a0 <> b0 \/ a1 <> b1) by
      (destruct (Z.eq_dec a0 b0); [right; congruence | left; assumption]).
    lia. }
  repeat split.
Qed.

(* ===================================================================== *)
(** * The object representation of the header *)
(* ===================================================================== *)

Lemma header_to_bytes_length d :
  length (header_to_bytes d) = 48%nat.
Proof. reflexivity. Qed.

Lemma header_from_to_bytes d rest :
  header_from_bytes (header_to_bytes d ++ rest) = header_wrap d.
Proof.
  unfold header_from_bytes, header_wrap, field.
  f_equal.
  - transitivity (le_combine (le_split 4 (trigger_record_header_marker d)));
      [reflexivity | apply le_combine_split].
  - transitivity (le_combine (le_split 4 (version d)));
      [reflexivity | apply le_combine_split].
  - transitivity (le_combine (le_split 8 (trigger_number d)));
      [reflexivity | apply le_combine_split].
  - transitivity (le_combine (le_split 8 (trigger_timestamp d)));
      [reflexivity | apply le_combine_split].
  - transitivity (le_combine (le_split 8 (num_requested_components d)));
      [reflexivity | apply le_combine_split].
  - transitivity (le_combine (le_split 4 (run_number d)));
      [reflexivity | apply le_combine_split].
  - transitivity (le_combine (le_split 4 (error_bits d)));
      [reflexivity | apply le_combine_split].
  - transitivity (le_combine (le_split 2 (trigger_type d)));
      [reflexivity | apply le_combine_split].
  - transitivity (le_combine (le_split 6 (unused d)));
      [reflexivity | apply le_combine_split].
Qed.

(* ===================================================================== *)
(** * What the constructors build *)
(* ===================================================================== *)

Section Construction.

Context {ComponentRequest : Type} `{!TriviallyCopyable ComponentRequest}.

Implicit Types (E cs : list ComponentRequest) (h : heap).

Lemma sizeof_ComponentRequest_pos : 0 < sizeof_ComponentRequest.
Proof. unfold sizeof_ComponentRequest. pose proof sizeof_pos. lia. Qed.

Lemma to_bytes_length_Z (c : ComponentRequest) :
  Z.of_nat (length (to_bytes c)) = sizeof_ComponentRequest.
Proof. rewrite to_bytes_length. reflexivity. Qed.

Lemma total_size_nat (n : nat) :
  total_size (Z.of_nat n) = Z.of_nat (48 + n * sizeof).
Proof.
  unfold total_size, sizeof_TriggerRecordHeaderData, sizeof_ComponentRequest.
  lia.
Qed.

(** The loop writes the components one after the other behind what the
    buffer already holds. *)
Lemma copy_components_spec cs : forall h b pre post,
  cells h !! b = Some (pre ++ post) ->
  length post = (length cs * sizeof)%nat ->
  Z.of_nat (length pre + length post) < size_max ->
  copy_components (Addr b 0) (Z.of_nat (length pre)) cs h
  = Returns tt
      (Heap (<[b := pre ++ concat (map to_bytes cs)]> (cells h))
            (available h)).
Proof.
  induction cs as [| c cs IH]; intros h b pre post Hb Hlen Hmax.
  - apply nil_length_inv in Hlen. subst post. simpl. unfold ret.
    rewrite app_nil_r in *. rewrite insert_id by assumption.
    rewrite heap_eta. reflexivity.
  - simpl in Hlen. cbn [copy_components]. unfold bind.
    assert (write h (Addr b 0 +ₚ Z.of_nat (length pre)) (to_bytes c)
            = Some (Heap (<[b := (pre ++ to_bytes c) ++ drop sizeof post]>
                            (cells h)) (available h))) as Hw.
    { cbn [write ptr_add]. rewrite Hb, Z.add_0_l.
      rewrite splice_app by (rewrite to_bytes_length; lia).
      rewrite to_bytes_length, <- app_assoc. reflexivity. }
    rewrite (store_bytes_write _ _ _ _ Hw).
    replace (size_add (Z.of_nat (length pre)) sizeof_ComponentRequest)
      with (Z.of_nat (length (pre ++ to_bytes c))).
    2:{ unfold size_add, sizeof_ComponentRequest.
        rewrite length_app, to_bytes_length, Z.mod_small; lia. }
    rewrite (IH _ b (pre ++ to_bytes c) (drop sizeof post)); simpl.
    + rewrite insert_insert_eq, <- app_assoc. reflexivity.
    + apply lookup_insert_eq.
    + rewrite length_drop. lia.
    + rewrite length_app, length_drop, to_bytes_length. lia.
Qed.

(** The first constructor: a fresh block holding the header and the
    components, in order. *)
Lemma from_components_spec E indet h :
  total_size (Z.of_nat (length E)) < size_max ->
  total_size (Z.of_nat (length E)) <= available h ->
  TriggerRecordHeader_from_components E indet h
  = Returns {| data_arr_ := Addr (fresh (dom (cells h))) 0; alloc_ := true |}
      (Heap (<[fresh (dom (cells h)) :=
                 header_to_bytes
                   (set_num_requested_components (default_initialized indet)
                      (Z.of_nat (length E)))
                 ++ concat (map to_bytes E)]> (cells h))
            (available h - total_size (Z.of_nat (length E)))).
Proof.
  intros Hmax Hav. unfold TriggerRecordHeader_from_components.
  set (hdr := set_num_requested_components _ _).
  set (b := fresh (dom (cells h))).
  assert (size_add sizeof_TriggerRecordHeaderData
            (size_mul (Z.of_nat (length E)) sizeof_ComponentRequest)
          = total_size (Z.of_nat (length E))) as ->.
  { unfold size_add, size_mul, total_size in *.
    pose proof sizeof_ComponentRequest_pos.
    unfold sizeof_TriggerRecordHeaderData in *.
    rewrite (Z.mod_small (_ * _)) by nia. apply Z.mod_small. nia. }
  unfold bind at 1. rewrite malloc_ok by assumption. fold b.
  replace (Z.to_nat (total_size (Z.of_nat (length E))))
    with (48 + length E * sizeof)%nat by (rewrite total_size_nat; lia).
  set (h1 := Heap _ _).
  assert (write h1 (Addr b 0) (header_to_bytes hdr)
          = Some (Heap (<[b := header_to_bytes hdr
                               ++ replicate (length E * sizeof) Byte.x00]>
                          (cells h)) (available h1))) as Hw.
  { cbn [write h1 cells]. rewrite lookup_insert_eq.
    change (replicate (48 + length E * sizeof) Byte.x00)
      with ([] ++ replicate (48 + length E * sizeof) Byte.x00).
    change 0 with (Z.of_nat (length (@nil byte))).
    rewrite splice_app by (rewrite length_replicate, header_to_bytes_length; lia).
    rewrite insert_insert_eq. reflexivity. }
  unfold bind at 1. rewrite (store_bytes_write _ _ _ _ Hw).
  unfold bind at 1.
  change sizeof_TriggerRecordHeaderData
    with (Z.of_nat (length (header_to_bytes hdr))).
  erewrite copy_components_spec; simpl.
  - unfold ret. rewrite insert_insert_eq. reflexivity.
  - apply lookup_insert_eq.
  - apply length_replicate.
  - rewrite length_replicate. rewrite total_size_nat in Hmax. lia.
Qed.

(** The second constructor without a copy: the pointer as it is, nothing
    owned, the heap untouched. *)
Lemma from_buffer_borrow p h :
  TriggerRecordHeader_from_buffer p false h
  = Returns {| data_arr_ := p; alloc_ := false |} h.
Proof. reflexivity. Qed.

Lemma field_bound o (n : nat) (bs : list byte) :
  0 <= field o n bs < 2 ^ (8 * Z.of_nat n).
Proof.
  unfold field. pose proof (le_combine_bound (take n (drop (Z.to_nat o) bs))) as B.
  assert (2 ^ (8 * Z.of_nat (length (take n (drop (Z.to_nat o) bs))))
          <= 2 ^ (8 * Z.of_nat n)).
  { apply Z.pow_le_mono_r; [lia |]. rewrite length_take. lia. }
  lia.
Qed.

Lemma count_bound (hb : list byte) :
  0 <= num_requested_components (header_from_bytes hb) < size_max.
Proof. apply (field_bound offsetof_num_requested_components 8). Qed.

Lemma size_of_count n :
  0 <= n -> total_size n < size_max ->
  size_add (size_mul n sizeof_ComponentRequest) sizeof_TriggerRecordHeaderData
  = total_size n.
Proof.
  intros Hn Hmax. unfold size_add, size_mul, total_size in *.
  pose proof sizeof_ComponentRequest_pos.
  unfold sizeof_TriggerRecordHeaderData in *.
  rewrite (Z.mod_small (_ * _)) by nia.
  rewrite Z.mod_small by nia. lia.
Qed.

(** The second constructor with a copy, on a buffer that holds what its
    header announces: a fresh block with the same bytes. *)
Lemma from_buffer_copy_spec h p hb all :
  read h p sizeof_TriggerRecordHeaderData = Some hb ->
  total_size (num_requested_components (header_from_bytes hb)) < size_max ->
  read h p (total_size (num_requested_components (header_from_bytes hb)))
  = Some all ->
  total_size (num_requested_components (header_from_bytes hb)) <= available h ->
  TriggerRecordHeader_from_buffer p true h
  = Returns {| data_arr_ := Addr (fresh (dom (cells h))) 0; alloc_ := true |}
      (Heap (<[fresh (dom (cells h)) := all]> (cells h))
            (available h
             - total_size (num_requested_components (header_from_bytes hb)))).
Proof.
  intros Hhb Hmax Hall Hav.
  unfold TriggerRecordHeader_from_buffer. cbn [negb].
  unfold bind at 1.
  rewrite (load_field _ _ _ _ _ Hhb) by (vm_compute; intuition discriminate).
  change (field offsetof_num_requested_components 8 hb)
    with (num_requested_components (header_from_bytes hb)).
  pose proof (count_bound hb) as Hn.
  set (n := num_requested_components (header_from_bytes hb)) in *.
  rewrite size_of_count by lia.
  unfold bind at 1. rewrite malloc_ok by assumption.
  set (b := fresh (dom (cells h))).
  unfold bind at 1, memcpy, bind at 1.
  rewrite (load_bytes_read _ _ _ all)
    by (apply read_insert_fresh; [apply fresh_block | assumption]).
  pose proof (read_length _ _ _ _ Hall) as Hlen.
  unfold store_bytes. cbn [write cells available].
  rewrite lookup_insert_eq.
  rewrite splice_all by (rewrite length_replicate; lia).
  rewrite insert_insert_eq. reflexivity.
Qed.

(** ** Reading a record whose header can be read *)

Section Readable.

Variables (h : heap) (self : TriggerRecordHeader) (hb : list byte).
Hypothesis Hhb : read h (data_arr_ self) sizeof_TriggerRecordHeaderData = Some hb.

Lemma get_header_spec : get_header self h = Returns (header_from_bytes hb) h.
Proof.
  unfold get_header, bind, header_.
  rewrite (load_bytes_read _ _ _ _ Hhb). reflexivity.
Qed.

Lemma get_trigger_number_spec :
  get_trigger_number self h = Returns (trigger_number (header_from_bytes hb)) h.
Proof. apply (load_field _ _ _ _ _ Hhb); vm_compute; discriminate. Qed.

Lemma get_trigger_timestamp_spec :
  get_trigger_timestamp self h
  = Returns (trigger_timestamp (header_from_bytes hb)) h.
Proof. apply (load_field _ _ _ _ _ Hhb); vm_compute; discriminate. Qed.

Lemma get_num_requested_components_spec :
  get_num_requested_components self h
  = Returns (num_requested_components (header_from_bytes hb)) h.
Proof. apply (load_field _ _ _ _ _ Hhb); vm_compute; discriminate. Qed.

Lemma get_run_number_spec :
  get_run_number self h = Returns (run_number (header_from_bytes hb)) h.
Proof. apply (load_field _ _ _ _ _ Hhb); vm_compute; discriminate. Qed.

Lemma get_error_bits_spec :
  get_error_bits self h = Returns (error_bits (header_from_bytes hb)) h.
Proof. apply (load_field _ _ _ _ _ Hhb); vm_compute; discriminate. Qed.

Lemma get_trigger_type_spec :
  get_trigger_type self h = Returns (trigger_type (header_from_bytes hb)) h.
Proof. apply (load_field _ _ _ _ _ Hhb); vm_compute; discriminate. Qed.

Lemma get_total_size_bytes_spec :
  get_total_size_bytes self h
  = Returns (size_add (size_mul (num_requested_components (header_from_bytes hb))
                                sizeof_ComponentRequest)
                      sizeof_TriggerRecordHeaderData) h.
Proof.
  unfold get_total_size_bytes, bind, header_.
  rewrite (load_field _ _ _ _ _ Hhb) by (vm_compute; intuition discriminate).
  reflexivity.
Qed.

(** [at] returns whatever bytes lie at the computed address, whether or
    not the index is below the count. *)
Lemma at_spec idx s :
  read h (component_ptr self idx) sizeof_ComponentRequest = Some s ->
  at_ self idx h = Returns (from_bytes s) h.
Proof.
  intros Hs. unfold at_, bind, header_.
  rewrite (load_field _ _ _ _ _ Hhb) by (vm_compute; intuition discriminate).
  destruct (_ <=? idx); unfold ret;
    rewrite (load_bytes_read _ _ _ _ Hs); reflexivity.
Qed.

Lemma operator_index_spec idx s :
  read h (component_ptr self idx) sizeof_ComponentRequest = Some s ->
  operator_index self idx h = Returns (component_ptr self idx) h.
Proof.
  intros Hs. unfold operator_index, bind, header_.
  rewrite (load_field _ _ _ _ _ Hhb) by (vm_compute; intuition discriminate).
  destruct (_ <=? idx); unfold ret;
    rewrite (load_bytes_read _ _ _ _ Hs); reflexivity.
Qed.

End Readable.

(** The [i]-th chunk of the components' bytes. *)
Lemma components_slice E : forall (i : nat) c,
  E !! i = Some c ->
  slice (Z.of_nat i * sizeof_ComponentRequest) sizeof_ComponentRequest
    (concat (map to_bytes E))
  = Some (to_bytes c).
Proof.
  induction E as [| c0 E IH]; intros i c Hi; [discriminate |].
  cbn [map concat]. destruct i as [| i].
  - injection Hi as ->. rewrite slice_app_l by (rewrite to_bytes_length_Z; lia).
    rewrite <- (to_bytes_length_Z c). apply slice_all.
  - replace (Z.of_nat (S i) * sizeof_ComponentRequest)
      with (Z.of_nat (length (to_bytes c0)) + Z.of_nat i * sizeof_ComponentRequest)
      by (rewrite to_bytes_length_Z; lia).
    pose proof sizeof_ComponentRequest_pos.
    rewrite slice_app_r by nia. apply IH. exact Hi.
Qed.

(** Writing a header field and reading it back. *)
Lemma store_field_spec h p hb o (n : nat) v :
  read h p sizeof_TriggerRecordHeaderData = Some hb ->
  0 <= o -> o + Z.of_nat n <= sizeof_TriggerRecordHeaderData ->
  exists h',
    store_uint n (p +ₚ o) v h = Returns tt h'
    /\ write h (p +ₚ o) (le_split n v) = Some h'
    /\ load_uint n (p +ₚ o) h' = Returns (v mod 2 ^ (Z.of_nat n * 8)) h'.
Proof.
  intros Hhb Ho Hn.
  pose proof (read_ptr_add_ok _ _ _ _ o (Z.of_nat n) Hhb) as Hr.
  destruct (write_ok h (p +ₚ o) (le_split n v)
              (take (Z.to_nat (Z.of_nat n)) (drop (Z.to_nat o) hb)))
    as [h' Hw].
  { rewrite length_le_split. apply Hr; lia. }
  exists h'. split; [apply store_bytes_write, Hw |]. split; [exact Hw |].
  apply write_read_same in Hw. rewrite length_le_split in Hw.
  rewrite (load_uint_read _ _ _ _ Hw). f_equal. apply le_combine_split.
Qed.

(** The header the first constructor writes reads back from the block. *)
Lemma built_header_readable cells0 a b d (payload : list byte) :
  read (Heap (<[b := header_to_bytes d ++ payload]> cells0) a) (Addr b 0)
       sizeof_TriggerRecordHeaderData
  = Some (header_to_bytes d).
Proof.
  cbn [read cells]. rewrite lookup_insert_eq.
  rewrite slice_app_l by (rewrite header_to_bytes_length; vm_compute; discriminate).
  apply (slice_all (header_to_bytes d)).
Qed.

End Construction.

(* ===================================================================== *)
(** * The claims *)
(* ===================================================================== *)

Section BuildFromElements.

Context {ComponentRequest : Type} `{!TriviallyCopyable ComponentRequest}.

Implicit Types (E : list ComponentRequest) (h : heap)
  (self : TriggerRecordHeader).

(** C1: a record built from the vector [E] of [n] components, when the
    size of the record is a [size_t] and the allocator provides it, has
    [get_num_requested_components() == n], and [at(i)] returns [E[i]] for
    every [0 <= i < n]. *)
Theorem C1_from_components_count_and_elements E indeterminate h :
  total_size (Z.of_nat (length E)) < size_max ->
  total_size (Z.of_nat (length E)) <= available h ->
  exists self h',
    TriggerRecordHeader_from_components E indeterminate h = Returns self h'
    /\ get_num_requested_components self h'
       = Returns (Z.of_nat (length E)) h'
    /\ forall idx, 0 <= idx < Z.of_nat (length E) ->
         exists c, E !! Z.to_nat idx = Some c
                   /\ at_ self idx h' = Returns c h'.
Proof.
  intros Hmax Hav. rewrite from_components_spec by assumption.
  eexists _, _. split; [reflexivity |].
  set (hdr := set_num_requested_components _ _).
  set (self := Build_TriggerRecordHeader _ _). set (h' := Heap _ _).
  assert (read h' (data_arr_ self) sizeof_TriggerRecordHeaderData
          = Some (header_to_bytes hdr)) as Hhb
    by apply built_header_readable.
  split.
  - rewrite (get_num_requested_components_spec _ _ _ Hhb).
    rewrite <- (app_nil_r (header_to_bytes hdr)), header_from_to_bytes.
    cbn [header_wrap hdr set_num_requested_components num_requested_components].
    f_equal. apply Z.mod_small.
    unfold total_size, sizeof_TriggerRecordHeaderData, size_max in *.
    pose proof sizeof_ComponentRequest_pos. nia.
  - intros idx Hidx.
    destruct (lookup_lt_is_Some_2 E (Z.to_nat idx)) as [c Hc]; [lia |].
    exists c. split; [exact Hc |].
    rewrite <- (from_to_bytes c). apply (at_spec _ _ _ Hhb).
    cbn [component_ptr header_ data_arr_ self ptr_add read cells h'].
    rewrite lookup_insert_eq.
    replace (0 + sizeof_TriggerRecordHeaderData + idx * sizeof_ComponentRequest)
      with (Z.of_nat (length (header_to_bytes hdr))
            + Z.of_nat (Z.to_nat idx) * sizeof_ComponentRequest)
      by (rewrite header_to_bytes_length, Z2Nat.id by lia;
          unfold sizeof_TriggerRecordHeaderData; lia).
    pose proof sizeof_ComponentRequest_pos.
    rewrite slice_app_r by nia.
    apply components_slice, Hc.
Qed.

(** C10: whatever the components, the record the first constructor builds
    has marker 0x33334444, version 1 and error bits 0.  The constructor takes
    nothing but the components: trigger number, trigger timestamp, run number
    and trigger type are what the storage of the local header happened to
    hold, independent of the components, until their setters store a
    value. *)
Theorem C10_from_components_header E indeterminate h :
  total_size (Z.of_nat (length E)) < size_max ->
  total_size (Z.of_nat (length E)) <= available h ->
  exists self h' hdr,
    TriggerRecordHeader_from_components E indeterminate h = Returns self h'
    /\ get_header self h' = Returns hdr h'
    /\ trigger_record_header_marker hdr = 0x33334444
    /\ version hdr = 1
    /\ error_bits hdr = 0
    /\ trigger_number hdr = trigger_number indeterminate mod 2 ^ 64
    /\ trigger_timestamp hdr = trigger_timestamp indeterminate mod 2 ^ 64
    /\ run_number hdr = run_number indeterminate mod 2 ^ 32
    /\ trigger_type hdr = trigger_type indeterminate mod 2 ^ 16
    /\ (forall v, 0 <= v < 2 ^ 64 ->
          exists h'', set_trigger_number self v h' = Returns tt h''
                      /\ get_trigger_number self h'' = Returns v h'')
    /\ (forall v, 0 <= v < 2 ^ 64 ->
          exists h'', set_trigger_timestamp self v h' = Returns tt h''
                      /\ get_trigger_timestamp self h'' = Returns v h'')
    /\ (forall v, 0 <= v < 2 ^ 32 ->
          exists h'', set_run_number self v h' = Returns tt h''
                      /\ get_run_number self h'' = Returns v h'')
    /\ (forall v, 0 <= v < 2 ^ 16 ->
          exists h'', set_trigger_type self v h' = Returns tt h''
                      /\ get_trigger_type self h'' = Returns v h'').
Proof.
  intros Hmax Hav. rewrite from_components_spec by assumption.
  set (hdr := set_num_requested_components _ _).
  set (self := Build_TriggerRecordHeader _ _). set (h' := Heap _ _).
  assert (read h' (data_arr_ self) sizeof_TriggerRecordHeaderData
          = Some (header_to_bytes hdr)) as Hhb
    by apply built_header_readable.
  exists self, h', (header_wrap hdr).
  split; [reflexivity |].
  clearbody h' self.
  split.
  { rewrite (get_header_spec _ _ _ Hhb).
    rewrite <- (app_nil_r (header_to_bytes hdr)), header_from_to_bytes.
    reflexivity. }
  do 7 (split; [reflexivity |]).
  assert (forall (n : nat) o v,
            0 <= o -> o + Z.of_nat n <= sizeof_TriggerRecordHeaderData ->
            0 <= v < 2 ^ (Z.of_nat n * 8) ->
            exists h'', store_uint n (header_ self +ₚ o) v h' = Returns tt h''
                        /\ load_uint n (header_ self +ₚ o) h'' = Returns v h'')
    as Hset.
  { intros n o v Ho Hn Hv.
    destruct (store_field_spec h' (data_arr_ self) _ o n v Hhb Ho Hn)
      as (h'' & Hs & _ & Hl).
    unfold header_. exists h''. split; [exact Hs |].
    rewrite Hl, Z.mod_small by assumption. reflexivity. }
  unfold set_trigger_number, get_trigger_number, set_trigger_timestamp,
    get_trigger_timestamp, set_run_number, get_run_number, set_trigger_type,
    get_trigger_type.
  repeat apply conj; intros v Hv; apply Hset;
    first [exact Hv | vm_compute; discriminate].
Qed.

End BuildFromElements.

Lemma C1_witness :
  exists self h',
    TriggerRecordHeader_from_components
      [stub Byte.x01 Byte.x02; stub Byte.x03 Byte.x04] stack_garbage empty_heap
    = Returns self h'
    /\ get_num_requested_components self h' = Returns 2 h'
    /\ forall idx, 0 <= idx < 2 ->
         exists c, [stub Byte.x01 Byte.x02; stub Byte.x03 Byte.x04] !! Z.to_nat idx
                   = Some c
                   /\ at_ self idx h' = Returns c h'.
Proof.
  apply (C1_from_components_count_and_elements
           [stub Byte.x01 Byte.x02; stub Byte.x03 Byte.x04]
           stack_garbage empty_heap).
  - reflexivity.
  - discriminate.
Defined.

Lemma C10_witness :
  exists self h' hdr,
    TriggerRecordHeader_from_components
      [stub Byte.x01 Byte.x02; stub Byte.x03 Byte.x04] stack_garbage empty_heap
    = Returns self h'
    /\ get_header self h' = Returns hdr h'
    /\ trigger_record_header_marker hdr = 0x33334444
    /\ version hdr = 1
    /\ error_bits hdr = 0
    /\ trigger_number hdr = 0x1111111111111111
    /\ run_number hdr = 0x44444444.
Proof.
  destruct (C10_from_components_header
              [stub Byte.x01 Byte.x02; stub Byte.x03 Byte.x04]
              stack_garbage empty_heap)
    as (self & h' & hdr & H1 & H2 & H3 & H4 & H5 & H6 & H7 & H8 & _).
  - reflexivity.
  - discriminate.
  - exists self, h', hdr.
    exact (conj H1 (conj H2 (conj H3 (conj H4 (conj H5 (conj H6 H8)))))).
Defined.

(* ===================================================================== *)
(** * Valid records *)
(* ===================================================================== *)

Section ValidRecords.

Context {ComponentRequest : Type} `{!TriviallyCopyable ComponentRequest}.

Implicit Types (h : heap) (self : TriggerRecordHeader).

Lemma ptr_add_add p a b : (p +ₚ a) +ₚ b = p +ₚ (a + b).
Proof. destruct p; simpl; [reflexivity | f_equal; lia]. Qed.

Lemma valid_inv h self :
  valid h self = true ->
  exists hb all,
    read h (data_arr_ self) sizeof_TriggerRecordHeaderData = Some hb
    /\ total_size (num_requested_components (header_from_bytes hb)) < size_max
    /\ read h (data_arr_ self)
         (total_size (num_requested_components (header_from_bytes hb)))
       = Some all.
Proof.
  unfold valid.
  destruct (read h (data_arr_ self) sizeof_TriggerRecordHeaderData)
    as [hb |] eqn:Hhb; [| discriminate].
  cbv zeta. rewrite andb_true_iff, Z.ltb_lt.
  destruct (read h (data_arr_ self) (total_size _)) as [all |] eqn:Hall;
    [| intros [_ ?]; discriminate].
  intros [Hmax _]. eauto.
Qed.

Lemma total_size_ge n : 0 <= n -> sizeof_TriggerRecordHeaderData <= total_size n.
Proof.
  intros Hn. unfold total_size. pose proof sizeof_ComponentRequest_pos. nia.
Qed.

(** The header of a record is the first 48 bytes of its buffer. *)
Lemma header_of_buffer h p n all hb :
  read h p (total_size n) = Some all -> 0 <= n ->
  read h p sizeof_TriggerRecordHeaderData = Some hb ->
  hb = take 48 all.
Proof.
  intros Hall Hn Hhb.
  rewrite (read_prefix _ _ _ _ sizeof_TriggerRecordHeaderData Hall) in Hhb
    by (pose proof (total_size_ge n Hn);
        unfold sizeof_TriggerRecordHeaderData in *; lia).
  injection Hhb as <-. reflexivity.
Qed.

(** The bytes of an element of a valid record. *)
Lemma element_read h self n all idx :
  read h (data_arr_ self) (total_size n) = Some all ->
  0 <= idx < n ->
  read h (component_ptr self idx) sizeof_ComponentRequest
  = Some (take sizeof
            (drop (Z.to_nat (sizeof_TriggerRecordHeaderData
                             + idx * sizeof_ComponentRequest)) all)).
Proof.
  intros Hall Hidx. unfold component_ptr, header_. rewrite ptr_add_add.
  pose proof sizeof_ComponentRequest_pos.
  rewrite (read_ptr_add_ok _ _ _ _ _ sizeof_ComponentRequest Hall).
  - unfold sizeof_ComponentRequest at 1. rewrite Nat2Z.id. reflexivity.
  - unfold sizeof_TriggerRecordHeaderData. nia.
  - lia.
  - unfold total_size. nia.
Qed.

(** A write keeps every readable range readable. *)
Lemma write_read_is_Some h w new h' q k s :
  write h w new = Some h' -> read h q k = Some s ->
  exists s', read h' q k = Some s'.
Proof.
  destruct w as [| b ofs]; [discriminate |].
  intros (bs & bs' & Hb & Hs & ->)%write_inv.
  destruct q as [| b' o]; [discriminate |]. cbn [read cells].
  destruct (decide (b' = b)) as [-> | Hne].
  - rewrite lookup_insert_eq, Hb.
    intros (H0 & Hk & Hl & _)%slice_Some.
    rewrite slice_ok; eauto. rewrite (splice_length _ _ _ _ Hs). lia.
  - rewrite lookup_insert_ne by congruence. eauto.
Qed.

(** A write through [p] outside a range read through [p] leaves it. *)
Lemma write_frame h p o new h' o' k :
  write h (p +ₚ o) new = Some h' ->
  o' + k <= o \/ o + Z.of_nat (length new) <= o' ->
  read h' (p +ₚ o') k = read h (p +ₚ o') k.
Proof.
  destruct p as [| b ofs]; [discriminate |]. cbn [ptr_add].
  intros Hw Hd. eapply write_read_disjoint; [exact Hw | lia].
Qed.

(** A header field whose bytes two heaps agree on. *)
Lemma field_frame h h' p hb hb' o (n : nat) :
  read h p sizeof_TriggerRecordHeaderData = Some hb ->
  read h' p sizeof_TriggerRecordHeaderData = Some hb' ->
  read h' (p +ₚ o) (Z.of_nat n) = read h (p +ₚ o) (Z.of_nat n) ->
  0 <= o -> o + Z.of_nat n <= sizeof_TriggerRecordHeaderData ->
  field o n hb' = field o n hb.
Proof.
  intros Hhb Hhb' Heq Ho Hn.
  rewrite (read_ptr_add_ok _ _ _ _ o (Z.of_nat n) Hhb) in Heq by lia.
  rewrite (read_ptr_add_ok _ _ _ _ o (Z.of_nat n) Hhb') in Heq by lia.
  injection Heq as Heq. rewrite Nat2Z.id in Heq. unfold field. congruence.
Qed.

End ValidRecords.

(* ===================================================================== *)
(** * Error bits *)
(* ===================================================================== *)

Lemma bitset_assign_test bits k v bits' j :
  bitset_assign bits k v = Some bits' -> 0 <= j < 32 ->
  bitset_test (bits' mod 2 ^ 32) j
  = Some (if j =? k then v else Z.testbit bits j).
Proof.
  unfold bitset_assign, bitset_test.
  destruct ((0 <=? k) && (k <? 32)) eqn:Hk; [| discriminate].
  intros [= <-] Hj.
  replace ((0 <=? j) && (j <? 32)) with true by lia. f_equal.
  rewrite Z.mod_pow2_bits_low by lia.
  destruct (Z.eqb_spec j k) as [-> | Hne].
  - destruct v; [apply Z.setbit_eq | apply Z.clearbit_eq]; lia.
  - destruct v; [apply Z.setbit_neq | apply Z.clearbit_neq]; lia.
Qed.

Section ErrorBits.

Context {ComponentRequest : Type} `{!TriviallyCopyable ComponentRequest}.

(** [set_error_bit] on a readable header: one write of the four bytes of
    the error word. *)
Lemma set_error_bit_spec self h hb k v :
  read h (data_arr_ self) sizeof_TriggerRecordHeaderData = Some hb ->
  0 <= k < 32 ->
  exists e' h',
    bitset_assign (error_bits (header_from_bytes hb)) k v = Some e'
    /\ set_error_bit self k v h = Returns tt h'
    /\ write h (data_arr_ self +ₚ offsetof_error_bits) (le_split 4 e') = Some h'
    /\ get_error_bits self h' = Returns (e' mod 2 ^ 32) h'.
Proof.
  intros Hhb Hk.
  set (e := error_bits (header_from_bytes hb)).
  destruct (bitset_assign e k v) as [e' |] eqn:He';
    [| unfold bitset_assign in He';
       replace ((0 <=? k) && (k <? 32)) with true in He' by lia; discriminate].
  destruct (store_field_spec h (data_arr_ self) hb offsetof_error_bits 4 e' Hhb)
    as (h' & Hs & Hw & Hl); [vm_compute; discriminate ..|].
  exists e', h'. split; [reflexivity |]. split; [| split; assumption].
  unfold set_error_bit, bind.
  rewrite (get_error_bits_spec _ _ _ Hhb). fold e. rewrite He'.
  cbn [undefined_unless]. exact Hs.
Qed.

(** C7: on a valid record, [set_error_bit(k, v)] with [0 <= k < 32] followed
    by [get_error_bit(k)] gives [v]; every other bit of the error word, every
    other header field and every element is as before. *)
Theorem C7_set_error_bit_get_and_frame self h k v :
  valid h self = true -> 0 <= k < 32 ->
  exists h' hdr hdr',
    set_error_bit self k v h = Returns tt h'
    /\ get_error_bit self k h' = Returns v h'
    /\ (forall j, 0 <= j < 32 -> j <> k ->
          exists b, get_error_bit self j h = Returns b h
                    /\ get_error_bit self j h' = Returns b h')
    /\ get_header self h = Returns hdr h
    /\ get_header self h' = Returns hdr' h'
    /\ trigger_record_header_marker hdr' = trigger_record_header_marker hdr
    /\ version hdr' = version hdr
    /\ trigger_number hdr' = trigger_number hdr
    /\ trigger_timestamp hdr' = trigger_timestamp hdr
    /\ num_requested_components hdr' = num_requested_components hdr
    /\ run_number hdr' = run_number hdr
    /\ trigger_type hdr' = trigger_type hdr
    /\ unused hdr' = unused hdr
    /\ (forall idx, 0 <= idx < num_requested_components hdr ->
          exists c, at_ self idx h = Returns c h
                    /\ at_ self idx h' = Returns c h').
Proof.
  intros (hb & all & Hhb & Hmax & Hall)%valid_inv Hk.
  pose proof (count_bound hb) as Hn.
  destruct (set_error_bit_spec self h hb k v Hhb Hk)
    as (e' & h' & He' & Hset & Hw & Hl).
  set (e := error_bits (header_from_bytes hb)) in *.
  destruct (write_read_is_Some _ _ _ _ _ _ _ Hw Hhb) as [hb' Hhb'].
  assert (forall o k0, o + k0 <= 36 \/ 40 <= o ->
            read h' (data_arr_ self +ₚ o) k0 = read h (data_arr_ self +ₚ o) k0)
    as Hframe.
  { intros o k0 Hd. apply (write_frame _ _ _ _ _ _ _ Hw).
    rewrite length_le_split. exact Hd. }
  assert (forall o (n : nat),
            0 <= o -> o + Z.of_nat n <= sizeof_TriggerRecordHeaderData ->
            o + Z.of_nat n <= 36 \/ 40 <= o ->
            field o n hb' = field o n hb) as Hfield.
  { intros o n Ho Hon Hd.
    apply (field_frame h h' (data_arr_ self)); auto. }
  exists h', (header_from_bytes hb), (header_from_bytes hb').
  split; [exact Hset |].
  split.
  { unfold get_error_bit, bind. rewrite Hl.
    rewrite (bitset_assign_test _ _ _ _ k He') by lia.
    rewrite Z.eqb_refl. reflexivity. }
  split.
  { intros j Hj Hne. exists (Z.testbit e j).
    unfold get_error_bit, bind.
    rewrite (get_error_bits_spec _ _ _ Hhb). fold e. rewrite Hl.
    rewrite (bitset_assign_test _ _ _ _ j He') by lia.
    replace (j =? k) with false by lia.
    unfold bitset_test. replace ((0 <=? j) && (j <? 32)) with true by lia.
    split; reflexivity. }
  split; [apply (get_header_spec _ _ _ Hhb) |].
  split; [apply (get_header_spec _ _ _ Hhb') |].
  do 8 (split; [apply Hfield; vm_compute; intuition discriminate |]).
  intros idx Hidx.
  pose proof (element_read _ _ _ _ idx Hall Hidx) as Hel.
  eexists. split; [apply (at_spec _ _ _ Hhb _ _ Hel) |].
  apply (at_spec _ _ _ Hhb'). rewrite <- Hel.
  unfold component_ptr, header_. rewrite ptr_add_add. apply Hframe.
  right. pose proof sizeof_ComponentRequest_pos.
  unfold sizeof_TriggerRecordHeaderData. nia.
Qed.

End ErrorBits.

Lemma C7_witness :
  exists h' hdr hdr',
    set_error_bit borrowing 5 true
      two_in_one_heap
    = Returns tt h'
    /\ get_error_bit borrowing 5 h'
       = Returns true h'
    /\ get_header borrowing two_in_one_heap
       = Returns hdr two_in_one_heap
    /\ get_header borrowing h'
       = Returns hdr' h'
    /\ trigger_number hdr' = trigger_number hdr.
Proof.
  destruct (C7_set_error_bit_get_and_frame (ComponentRequest := StubRequest)
              borrowing
              two_in_one_heap 5 true)
    as (h' & hdr & hdr' & H1 & H2 & _ & H4 & H5 & _ & _ & H8 & _).
  - vm_compute. reflexivity.
  - lia.
  - exists h', hdr, hdr'. exact (conj H1 (conj H2 (conj H4 (conj H5 H8)))).
Defined.

(* ===================================================================== *)
(** * Runs that return *)
(* ===================================================================== *)

Lemma bind_Returns {A B} (c : M A) (k : A -> M B) h b h2 :
  bind c k h = Returns b h2 ->
  exists a h1, c h = Returns a h1 /\ k a h1 = Returns b h2.
Proof.
  unfold bind. destruct (c h) as [a h1 | e h1 | h1]; try discriminate. eauto.
Qed.

Lemma load_bytes_Returns p n h bs h' :
  load_bytes p n h = Returns bs h' -> h' = h /\ read h p n = Some bs.
Proof.
  unfold load_bytes. destruct (read h p n); intros [= <- <-]. auto.
Qed.

Lemma load_uint_Returns n p h v h' :
  load_uint n p h = Returns v h' -> h' = h.
Proof.
  intros (bs & h1 & Hl & Hr)%bind_Returns.
  apply load_bytes_Returns in Hl as [-> _]. injection Hr as _ <-. reflexivity.
Qed.

Lemma store_bytes_Returns p bs h h' :
  store_bytes p bs h = Returns tt h' -> write h p bs = Some h'.
Proof.
  unfold store_bytes. destruct (write h p bs); intros [= <-]. reflexivity.
Qed.

Lemma undefined_unless_Returns {A} (o : option A) h a h' :
  undefined_unless o h = Returns a h' -> h' = h.
Proof. destruct o; intros [= _ <-]. reflexivity. Qed.

(** A store through a pointer into block [b] leaves the other blocks. *)
Lemma store_bytes_frame b o bs h h' :
  store_bytes (Addr b o) bs h = Returns tt h' ->
  forall b', b' <> b -> cells h' !! b' = cells h !! b'.
Proof.
  intros Hw%store_bytes_Returns b' Hne.
  eapply write_cells_other; eassumption.
Qed.

(* ===================================================================== *)
(** * Copies *)
(* ===================================================================== *)

Section Copies.

Context {ComponentRequest : Type} `{!TriviallyCopyable ComponentRequest}.

Implicit Types (h : heap) (self other copy : TriggerRecordHeader).

(** What can be read from a block holding a whole record. *)
Lemma copied_reads cells0 a b (all : list byte) n :
  0 <= n -> Z.of_nat (length all) = total_size n ->
  let h' := Heap (<[b := all]> cells0) a in
  read h' (Addr b 0) (total_size n) = Some all
  /\ read h' (Addr b 0) sizeof_TriggerRecordHeaderData = Some (take 48 all).
Proof.
  intros Hn Hlen h'. subst h'. rewrite !read_block.
  pose proof (total_size_ge n Hn) as Hge.
  split.
  - rewrite <- Hlen. apply slice_all.
  - rewrite slice_ok by (unfold sizeof_TriggerRecordHeaderData in *; lia).
    reflexivity.
Qed.

Lemma read_agree h1 h2 b o k :
  cells h1 !! b = cells h2 !! b -> read h1 (Addr b o) k = read h2 (Addr b o) k.
Proof. intros H. cbn [read]. rewrite H. reflexivity. Qed.

(** The copying constructor on a valid record, when the allocator provides
    the bytes. *)
Lemma copy_of_valid h other size :
  valid h other = true ->
  get_total_size_bytes other h = Returns size h -> size <= available h ->
  exists hb all b,
    read h (data_arr_ other) sizeof_TriggerRecordHeaderData = Some hb
    /\ size = total_size (num_requested_components (header_from_bytes hb))
    /\ size < size_max
    /\ read h (data_arr_ other) size = Some all
    /\ b = fresh (dom (cells h))
    /\ TriggerRecordHeader_from_buffer (data_arr_ other) true h
       = Returns {| data_arr_ := Addr b 0; alloc_ := true |}
           (Heap (<[b := all]> (cells h)) (available h - size)).
Proof.
  intros (hb & all & Hhb & Hmax & Hall)%valid_inv Hsize Hav.
  pose proof (count_bound hb) as Hn.
  rewrite (get_total_size_bytes_spec _ _ _ Hhb), size_of_count in Hsize by lia.
  injection Hsize as <-.
  exists hb, all, (fresh (dom (cells h))).
  repeat (split; [first [assumption | reflexivity] |]).
  apply from_buffer_copy_spec; assumption.
Qed.

(** C4: wrapping the buffer of a valid record with [copy == true], when the
    allocator provides its size, gives a record with the same header fields,
    the same element at every index below the count and the same
    [get_total_size_bytes()]; the source reads as before. *)
Theorem C4_copy_of_buffer_round_trip self h size :
  valid h self = true ->
  get_total_size_bytes self h = Returns size h -> size <= available h ->
  exists copy h' hdr,
    TriggerRecordHeader_from_buffer (get_storage_location self) true h
    = Returns copy h'
    /\ get_header self h = Returns hdr h
    /\ get_header self h' = Returns hdr h'
    /\ get_header copy h' = Returns hdr h'
    /\ (forall idx, 0 <= idx < num_requested_components hdr ->
          exists c, at_ self idx h = Returns c h
                    /\ at_ self idx h' = Returns c h'
                    /\ at_ copy idx h' = Returns c h')
    /\ get_total_size_bytes self h' = Returns size h'
    /\ get_total_size_bytes copy h' = Returns size h'.
Proof.
  intros Hvalid Hsize Hav.
  destruct (copy_of_valid h self size Hvalid Hsize Hav)
    as (hb & all & b & Hhb & Hsz & Hmax & Hall & Hb & Hcopy).
  unfold get_storage_location. rewrite Hcopy.
  set (copy := Build_TriggerRecordHeader _ _). set (h' := Heap _ _).
  pose proof (count_bound hb) as Hn.
  set (n := num_requested_components (header_from_bytes hb)) in *.
  pose proof (read_length _ _ _ _ Hall) as Hlen. rewrite Hsz in Hlen, Hall.
  destruct (copied_reads (cells h) (available h - size) b all n)
    as [Hall' Hhb']; [lia | assumption |].
  fold h' in Hall', Hhb'.
  rewrite <- (header_of_buffer _ _ _ _ _ Hall (proj1 Hn) Hhb) in Hhb'.
  assert (cells h !! b = None) as Hfresh by (subst b; apply fresh_block).
  assert (forall q k s, read h q k = Some s -> read h' q k = Some s) as Hkeep
    by (intros q k s; apply read_insert_fresh, Hfresh).
  pose proof (Hkeep _ _ _ Hhb) as Hhb2. pose proof (Hkeep _ _ _ Hall) as Hall2.
  assert (size_add (size_mul n sizeof_ComponentRequest)
            sizeof_TriggerRecordHeaderData = size) as Hsize'
    by (rewrite Hsz; apply size_of_count; [lia | rewrite <- Hsz; exact Hmax]).
  exists copy, h', (header_from_bytes hb).
  change (Addr b 0) with (data_arr_ copy) in Hall', Hhb'.
  clearbody h' copy.
  split; [reflexivity |].
  split; [apply (get_header_spec _ _ _ Hhb) |].
  split; [apply (get_header_spec _ _ _ Hhb2) |].
  split; [apply (get_header_spec _ _ _ Hhb') |].
  split.
  { intros idx Hidx.
    pose proof (element_read _ _ _ _ idx Hall Hidx) as Hel.
    pose proof (Hkeep _ _ _ Hel) as Hel2.
    eexists. split; [apply (at_spec _ _ _ Hhb _ _ Hel) |].
    split; [apply (at_spec _ _ _ Hhb2 _ _ Hel2) |].
    apply (at_spec _ _ _ Hhb'). apply element_read with (n := n); assumption. }
  split.
  - rewrite (get_total_size_bytes_spec _ _ _ Hhb2). fold n. rewrite Hsize'.
    reflexivity.
  - rewrite (get_total_size_bytes_spec _ _ _ Hhb'). fold n. rewrite Hsize'.
    reflexivity.
Qed.

End Copies.

Lemma C4_witness :
  exists copy h' hdr,
    TriggerRecordHeader_from_buffer (ComponentRequest := StubRequest)
      (get_storage_location borrowing) true two_in_one_heap
    = Returns copy h'
    /\ get_header borrowing two_in_one_heap = Returns hdr two_in_one_heap
    /\ get_header copy h' = Returns hdr h'
    /\ get_total_size_bytes (ComponentRequest := StubRequest) copy h'
       = Returns 50 h'.
Proof.
  destruct (C4_copy_of_buffer_round_trip (ComponentRequest := StubRequest)
              borrowing two_in_one_heap 50)
    as (copy & h' & hdr & H1 & H2 & _ & H4 & _ & _ & H7).
  - vm_compute. reflexivity.
  - vm_compute. reflexivity.
  - vm_compute. discriminate.
  - exists copy, h', hdr. exact (conj H1 (conj H2 (conj H4 H7))).
Defined.

Section CopySemantics.

Context {ComponentRequest : Type} `{!TriviallyCopyable ComponentRequest}.

Implicit Types (h : heap) (self other copy : TriggerRecordHeader).

(** [memcpy] into the block [malloc] has just returned. *)
Lemma memcpy_into_fresh h p size all :
  read h p size = Some all ->
  memcpy (Addr (fresh (dom (cells h))) 0) p size
    (Heap (<[fresh (dom (cells h)) := replicate (Z.to_nat size) Byte.x00]>
             (cells h))
          (available h - size))
  = Returns tt
      (Heap (<[fresh (dom (cells h)) := all]> (cells h)) (available h - size)).
Proof.
  intros Hall. unfold memcpy, bind.
  rewrite (load_bytes_read _ _ _ all)
    by (apply read_insert_fresh; [apply fresh_block | assumption]).
  pose proof (read_length _ _ _ _ Hall) as Hlen.
  unfold store_bytes. cbn [write cells available].
  rewrite lookup_insert_eq.
  rewrite splice_all by (rewrite length_replicate; lia).
  rewrite insert_insert_eq. reflexivity.
Qed.

(** Copy assignment from another object does what the copy constructor
    does. *)
Lemma operator_assign_spec this self other_addr other h size :
  other_addr <> this ->
  valid h other = true ->
  get_total_size_bytes other h = Returns size h -> size <= available h ->
  operator_assign this self other_addr other h
  = TriggerRecordHeader_copy other h.
Proof.
  intros Hne Hvalid Hsize Hav.
  destruct (copy_of_valid h other size Hvalid Hsize Hav)
    as (hb & all & b & Hhb & Hsz & Hmax & Hall & -> & Hcopy).
  unfold TriggerRecordHeader_copy. rewrite Hcopy.
  unfold operator_assign.
  replace (other_addr =? this)%nat with false
    by (symmetry; apply Nat.eqb_neq; exact Hne).
  unfold bind at 1. rewrite Hsize.
  unfold bind at 1. rewrite malloc_ok by assumption.
  set (h1 := Heap _ _).
  assert (read h1 (data_arr_ other) sizeof_TriggerRecordHeaderData = Some hb)
    as Hhb1 by (apply read_insert_fresh; [apply fresh_block | assumption]).
  assert (get_total_size_bytes other h1 = Returns size h1) as Hsize1.
  { rewrite (get_total_size_bytes_spec _ _ _ Hhb1).
    rewrite (get_total_size_bytes_spec _ _ _ Hhb) in Hsize.
    injection Hsize as Hs. rewrite <- Hs. reflexivity. }
  unfold bind at 1. rewrite Hsize1.
  unfold bind at 1. subst h1. rewrite (memcpy_into_fresh _ _ _ all Hall).
  reflexivity.
Qed.

(** Assigning an object to itself changes nothing. *)
Lemma operator_assign_self this self h :
  operator_assign this self this self h = Returns self h.
Proof. unfold operator_assign. rewrite Nat.eqb_refl. reflexivity. Qed.

Lemma operator_index_Returns self idx h ref h' :
  operator_index self idx h = Returns ref h' ->
  h' = h /\ ref = component_ptr self idx.
Proof.
  intros (n & h1 & Hn & H1)%bind_Returns.
  apply load_uint_Returns in Hn as ->.
  apply bind_Returns in H1 as ([] & h2 & Hif & H2).
  assert (h2 = h) as -> by (destruct (n <=? idx); injection Hif as <-; reflexivity).
  apply bind_Returns in H2 as (bs & h3 & Hl & H3).
  apply load_bytes_Returns in Hl as [-> _].
  injection H3 as <- <-. auto.
Qed.

(** Every mutation of a record stores into the block of its buffer and
    nowhere else. *)
Lemma mutate_frame self b o m h h' :
  data_arr_ self = Addr b o ->
  mutate self m h = Returns tt h' ->
  forall b', b' <> b -> cells h' !! b' = cells h !! b'.
Proof.
  intros Hp Hm.
  destruct m as [v | v | v | bits | bit value | v | idx c]; cbn [mutate] in Hm.
  - unfold set_trigger_number, store_uint, header_ in Hm. rewrite Hp in Hm.
    exact (store_bytes_frame _ _ _ _ _ Hm).
  - unfold set_trigger_timestamp, store_uint, header_ in Hm. rewrite Hp in Hm.
    exact (store_bytes_frame _ _ _ _ _ Hm).
  - unfold set_run_number, store_uint, header_ in Hm. rewrite Hp in Hm.
    exact (store_bytes_frame _ _ _ _ _ Hm).
  - unfold set_error_bits, store_uint, header_ in Hm. rewrite Hp in Hm.
    exact (store_bytes_frame _ _ _ _ _ Hm).
  - apply bind_Returns in Hm as (bits & h1 & Hg & Hm).
    apply load_uint_Returns in Hg as ->.
    apply bind_Returns in Hm as (bits' & h2 & Hu & Hm).
    apply undefined_unless_Returns in Hu as ->.
    unfold set_error_bits, store_uint, header_ in Hm. rewrite Hp in Hm.
    exact (store_bytes_frame _ _ _ _ _ Hm).
  - unfold set_trigger_type, store_uint, header_ in Hm. rewrite Hp in Hm.
    exact (store_bytes_frame _ _ _ _ _ Hm).
  - apply bind_Returns in Hm as (ref & h1 & Hi & Hm).
    apply operator_index_Returns in Hi as [-> ->].
    unfold assign_component, component_ptr, header_ in Hm. rewrite Hp in Hm.
    exact (store_bytes_frame _ _ _ _ _ Hm).
Qed.

(** Every applicable mutation of a valid record returns. *)
Lemma mutate_returns self h hb all m :
  read h (data_arr_ self) sizeof_TriggerRecordHeaderData = Some hb ->
  read h (data_arr_ self)
    (total_size (num_requested_components (header_from_bytes hb))) = Some all ->
  applicable (num_requested_components (header_from_bytes hb)) m = true ->
  exists h', mutate self m h = Returns tt h'.
Proof.
  intros Hhb Hall Hm.
  assert (forall (n : nat) o v,
            0 <= o -> o + Z.of_nat n <= sizeof_TriggerRecordHeaderData ->
            exists h', store_uint n (header_ self +ₚ o) v h = Returns tt h')
    as Hstore.
  { intros n o v Ho Hn.
    destruct (store_field_spec h (data_arr_ self) hb o n v Hhb Ho Hn)
      as (h' & Hs & _). exists h'. exact Hs. }
  destruct m as [v | v | v | bits | bit value | v | idx c];
    cbn [mutate applicable] in *.
  - apply Hstore; vm_compute; discriminate.
  - apply Hstore; vm_compute; discriminate.
  - apply Hstore; vm_compute; discriminate.
  - apply Hstore; vm_compute; discriminate.
  - destruct (set_error_bit_spec self h hb bit value Hhb)
      as (e' & h' & _ & Hs & _); [lia | eauto].
  - apply Hstore; vm_compute; discriminate.
  - assert (0 <= idx < num_requested_components (header_from_bytes hb))
      as Hidx by lia.
    pose proof (element_read _ _ _ _ idx Hall Hidx) as Hel.
    unfold bind. rewrite (operator_index_spec _ _ _ Hhb _ _ Hel).
    unfold assign_component.
    destruct (write_ok h (component_ptr self idx) (to_bytes c)
                (take sizeof
                   (drop (Z.to_nat (sizeof_TriggerRecordHeaderData
                                    + idx * sizeof_ComponentRequest)) all)))
      as [h' Hw].
    + rewrite to_bytes_length_Z. exact Hel.
    + exists h'. apply store_bytes_write, Hw.
Qed.

End CopySemantics.

Lemma free_live h b bs :
  cells h !! b = Some bs ->
  free (Addr b 0) h
  = Returns tt (Heap (delete b (cells h)) (available h + Z.of_nat (length bs))).
Proof. intros H. unfold free. rewrite H. reflexivity. Qed.

(** A record that can be destroyed in a heap can be destroyed in every heap
    with the same block behind its pointer; the other blocks stay. *)
Lemma destructor_agree self b ofs h1 h2 :
  data_arr_ self = Addr b ofs ->
  cells h1 !! b = cells h2 !! b ->
  value_of (destructor self h1) = Some tt ->
  exists h2',
    destructor self h2 = Returns tt h2'
    /\ forall b', b' <> b -> cells h2' !! b' = cells h2 !! b'.
Proof.
  intros Hp Hc. unfold destructor. destruct (alloc_ self).
  - rewrite Hp. unfold free. rewrite <- Hc.
    destruct (cells h1 !! b) as [bs |]; [| discriminate].
    destruct (ofs =? 0); [| discriminate].
    intros _. eexists. split; [reflexivity |].
    intros b' Hne. cbn [cells]. apply lookup_delete_ne. congruence.
  - intros _. exists h2. split; [reflexivity | auto].
Qed.

Section CopyClaim.

Context {ComponentRequest : Type} `{!TriviallyCopyable ComponentRequest}.

(** C5: copying a valid record, owning or borrowing, by the copy constructor
    or by copy assignment from another object, when the allocator provides
    the bytes, gives an owning record on a fresh block that holds a copy of
    the source's bytes.  No mutation of the copy changes the header or an
    element of the source, and the two records can be destroyed in either
    order. *)
Theorem C5_copy_is_deep_and_independent
  (this : address) (self : TriggerRecordHeader)
  (other_addr : address) (other : TriggerRecordHeader) (h : heap) (size : Z) :
  valid h other = true ->
  get_total_size_bytes other h = Returns size h -> size <= available h ->
  other_addr <> this ->
  value_of (destructor other h) = Some tt ->
  exists copy h' b all,
    TriggerRecordHeader_copy other h = Returns copy h'
    /\ operator_assign this self other_addr other h = Returns copy h'
    /\ alloc_ copy = true
    /\ data_arr_ copy = Addr b 0
    /\ cells h !! b = None
    /\ read h (data_arr_ other) size = Some all
    /\ cells h' !! b = Some all
    /\ (exists hdr,
          get_header other h = Returns hdr h
          /\ get_header copy h' = Returns hdr h'
          /\ (forall m,
                applicable (num_requested_components hdr) m = true ->
                exists h'', mutate copy m h' = Returns tt h'')
          /\ (forall m h'',
                mutate copy m h' = Returns tt h'' ->
                get_header other h'' = Returns hdr h''
                /\ forall idx,
                     0 <= idx < num_requested_components hdr ->
                     exists c, at_ other idx h = Returns c h
                               /\ at_ other idx h'' = Returns c h''))
    /\ (exists h1 h2,
          destructor copy h' = Returns tt h1
          /\ destructor other h1 = Returns tt h2)
    /\ (exists h1 h2,
          destructor other h' = Returns tt h1
          /\ destructor copy h1 = Returns tt h2).
Proof.
  intros Hvalid Hsize Hav Hne Hdestr.
  rewrite (operator_assign_spec this self other_addr other h size)
    by assumption.
  destruct (copy_of_valid h other size Hvalid Hsize Hav)
    as (hb & all & b & Hhb & Hsz & Hmax & Hall & Hb & Hcopy).
  unfold TriggerRecordHeader_copy. rewrite Hcopy.
  set (copy := Build_TriggerRecordHeader _ _). set (h' := Heap _ _).
  assert (cells h !! b = None) as Hfresh by (subst b; apply fresh_block).
  destruct (data_arr_ other) as [| bo ofs] eqn:Hp; [discriminate |].
  assert (bo <> b) as Hbo.
  { intros ->. cbn [read] in Hhb. rewrite Hfresh in Hhb. discriminate. }
  assert (cells h' !! bo = cells h !! bo) as Hsame
    by (apply lookup_insert_ne; congruence).
  assert (cells h' !! b = Some all) as Hcopied by apply lookup_insert_eq.
  assert (data_arr_ copy = Addr b 0) as Hq by reflexivity.
  assert (alloc_ copy = true) as Hown by reflexivity.
  pose proof (count_bound hb) as Hn.
  set (n := num_requested_components (header_from_bytes hb)) in *.
  pose proof (read_length _ _ _ _ Hall) as Hlen. rewrite Hsz in Hlen.
  destruct (copied_reads (cells h) (available h - size) b all n)
    as [Hall' Hhb']; [lia | assumption |].
  fold h' in Hall', Hhb'.
  assert (Hall0 := Hall). rewrite Hsz in Hall0.
  assert (hb = take 48 all) as Htake.
  { rewrite <- Hp in Hall0, Hhb.
    exact (header_of_buffer _ _ _ _ _ Hall0 (proj1 Hn) Hhb). }
  rewrite <- Htake in Hhb'.
  change (Addr b 0) with (data_arr_ copy) in Hall', Hhb'.
  exists copy, h', b, all.
  clearbody h' copy.
  do 7 (split; [first [reflexivity | assumption] |]).
  split.
  { exists (header_from_bytes hb).
    split; [apply get_header_spec; rewrite Hp; exact Hhb |].
    split; [apply (get_header_spec _ _ _ Hhb') |].
    split; [intros m Hm; exact (mutate_returns copy h' hb all m Hhb' Hall' Hm) |].
    intros m h'' Hm.
    pose proof (mutate_frame copy b 0 m h' h'' Hq Hm bo Hbo) as Hfr.
    rewrite Hsame in Hfr.
    assert (forall o k, read h'' (Addr bo o) k = read h (Addr bo o) k) as Hrd
      by (intros o k; apply read_agree, Hfr).
    assert (read h'' (data_arr_ other) sizeof_TriggerRecordHeaderData = Some hb)
      as Hhb'' by (rewrite Hp, Hrd; exact Hhb).
    split; [apply (get_header_spec _ _ _ Hhb'') |].
    intros idx Hidx.
    assert (read h (data_arr_ other) (total_size n) = Some all) as Hall1
      by (rewrite Hp; exact Hall0).
    pose proof (element_read _ _ _ _ idx Hall1 Hidx) as Hel.
    assert (read h (data_arr_ other) sizeof_TriggerRecordHeaderData = Some hb)
      as Hhb1 by (rewrite Hp; exact Hhb).
    eexists. split; [apply (at_spec _ _ _ Hhb1 _ _ Hel) |].
    apply (at_spec _ _ _ Hhb''). rewrite <- Hel.
    unfold component_ptr, header_. rewrite Hp. apply Hrd. }
  split.
  - unfold destructor at 1. rewrite Hown, Hq, (free_live _ _ _ Hcopied).
    set (h1 := Heap _ _).
    assert (cells h !! bo = cells h1 !! bo) as H1
      by (cbn [h1 cells]; rewrite lookup_delete_ne, Hsame by congruence;
          reflexivity).
    destruct (destructor_agree other bo ofs h h1 Hp H1 Hdestr) as (h2 & Hd & _).
    eauto.
  - destruct (destructor_agree other bo ofs h h' Hp (eq_sym Hsame) Hdestr)
      as (h1 & Hd & Hfr).
    exists h1. rewrite Hd.
    unfold destructor. rewrite Hown, Hq.
    assert (cells h1 !! b = Some all) as H1
      by (rewrite Hfr by congruence; exact Hcopied).
    rewrite (free_live _ _ _ H1). eauto.
Qed.

End CopyClaim.

Lemma C5_witness :
  exists copy h' b all,
    TriggerRecordHeader_copy (ComponentRequest := StubRequest) borrowing
      two_in_one_heap
    = Returns copy h'
    /\ operator_assign (ComponentRequest := StubRequest) 1%nat borrowing
         0%nat borrowing two_in_one_heap
       = Returns copy h'
    /\ alloc_ copy = true
    /\ data_arr_ copy = Addr b 0
    /\ cells two_in_one_heap !! b = None
    /\ cells h' !! b = Some all.
Proof.
  destruct (C5_copy_is_deep_and_independent (ComponentRequest := StubRequest)
              1%nat borrowing 0%nat borrowing two_in_one_heap 50)
    as (copy & h' & b & all & H1 & H2 & H3 & H4 & H5 & _ & H7 & _).
  - vm_compute. reflexivity.
  - vm_compute. reflexivity.
  - vm_compute. discriminate.
  - lia.
  - reflexivity.
  - exists copy, h', b, all.
    exact (conj H1 (conj H2 (conj H3 (conj H4 (conj H5 H7))))).
Defined.

(* ===================================================================== *)
(** * No operation throws *)
(* ===================================================================== *)

Lemma bind_no_throw {A B} (c : M A) (k : A -> M B) h :
  throws (c h) = false -> (forall a h1, throws (k a h1) = false) ->
  throws (bind c k h) = false.
Proof.
  intros Hc Hk. unfold bind.
  destruct (c h); [apply Hk | discriminate | reflexivity].
Qed.

Lemma ret_no_throw {A} (a : A) h : throws (ret a h) = false.
Proof. reflexivity. Qed.

Lemma malloc_no_throw size h : throws (malloc size h) = false.
Proof. unfold malloc. destruct (size <=? available h); reflexivity. Qed.

Lemma load_bytes_no_throw p n h : throws (load_bytes p n h) = false.
Proof. unfold load_bytes. destruct (read h p n); reflexivity. Qed.

Lemma store_bytes_no_throw p bs h : throws (store_bytes p bs h) = false.
Proof. unfold store_bytes. destruct (write h p bs); reflexivity. Qed.

Lemma load_uint_no_throw n p h : throws (load_uint n p h) = false.
Proof.
  apply bind_no_throw; [apply load_bytes_no_throw | intros; apply ret_no_throw].
Qed.

Lemma memcpy_no_throw dst src n h : throws (memcpy dst src n h) = false.
Proof.
  apply bind_no_throw; [apply load_bytes_no_throw |].
  intros. apply store_bytes_no_throw.
Qed.

Section NoThrow.

Context {ComponentRequest : Type} `{!TriviallyCopyable ComponentRequest}.

Lemma copy_components_no_throw (cs : list ComponentRequest) :
  forall p offset h, throws (copy_components p offset cs h) = false.
Proof.
  induction cs as [| c cs IH]; intros p offset h; cbn [copy_components].
  - reflexivity.
  - apply bind_no_throw; [apply store_bytes_no_throw | intros; apply IH].
Qed.

Lemma from_components_no_throw (E : list ComponentRequest) indeterminate h :
  throws (TriggerRecordHeader_from_components E indeterminate h) = false.
Proof.
  unfold TriggerRecordHeader_from_components.
  apply bind_no_throw; [apply malloc_no_throw | intros p h1].
  apply bind_no_throw; [apply store_bytes_no_throw | intros _ h2].
  apply bind_no_throw; [apply copy_components_no_throw | intros _ h3].
  reflexivity.
Qed.

Lemma from_buffer_no_throw p copy_from_buffer h :
  throws (TriggerRecordHeader_from_buffer p copy_from_buffer h) = false.
Proof.
  unfold TriggerRecordHeader_from_buffer.
  destruct copy_from_buffer; cbn [negb]; [| reflexivity].
  apply bind_no_throw; [apply load_uint_no_throw | intros n h1].
  apply bind_no_throw; [apply malloc_no_throw | intros q h2].
  apply bind_no_throw; [apply memcpy_no_throw | intros _ h3].
  reflexivity.
Qed.

Lemma at_no_throw self idx h : throws (at_ self idx h) = false.
Proof.
  unfold at_.
  apply bind_no_throw; [apply load_uint_no_throw | intros n h1].
  apply bind_no_throw; [destruct (n <=? idx); reflexivity | intros _ h2].
  apply bind_no_throw; [apply load_bytes_no_throw | intros bs h3].
  reflexivity.
Qed.

Lemma operator_index_no_throw self idx h :
  throws (operator_index self idx h) = false.
Proof.
  unfold operator_index.
  apply bind_no_throw; [apply load_uint_no_throw | intros n h1].
  apply bind_no_throw; [destruct (n <=? idx); reflexivity | intros _ h2].
  apply bind_no_throw; [apply load_bytes_no_throw | intros bs h3].
  reflexivity.
Qed.

Lemma no_throw_not_rejects {A} (o : outcome A) h :
  throws o = false -> ~ rejects o h.
Proof. intros Ho [e ->]. discriminate. Qed.

End NoThrow.

(* ===================================================================== *)
(** * Element access out of range *)
(* ===================================================================== *)

(** C2: the range test of [at] and [operator[]] has an empty body.  On the
    caller's 52-byte buffer whose header announces one component, index 1
    is out of range, and [at(1)] returns the two bytes behind the record as
    a component while [operator[](1)] returns a reference to them; on a record
    built from two components, [at(2)] reads past the end of the block.
    Neither accessor ever throws. *)
Theorem C2_at_does_not_check_the_index :
  get_num_requested_components borrowing two_in_one_heap
  = Returns 1 two_in_one_heap
  /\ at_ borrowing 1 two_in_one_heap
     = Returns (stub Byte.x0c Byte.x0d) two_in_one_heap
  /\ operator_index (ComponentRequest := StubRequest) borrowing 1 two_in_one_heap
     = Returns (Addr 0%nat 50) two_in_one_heap
  /\ (exists self h',
        TriggerRecordHeader_from_components
          [stub Byte.x01 Byte.x02; stub Byte.x03 Byte.x04]
          stack_garbage empty_heap
        = Returns self h'
        /\ get_num_requested_components self h' = Returns 2 h'
        /\ at_ (ComponentRequest := StubRequest) self 2 h' = Undefined h')
  /\ (forall self idx h,
        throws (at_ (ComponentRequest := StubRequest) self idx h) = false
        /\ throws (operator_index (ComponentRequest := StubRequest) self idx h)
           = false).
Proof.
  split; [vm_compute; reflexivity |].
  split; [vm_compute; reflexivity |].
  split; [vm_compute; reflexivity |].
  split.
  - eexists _, _. split; [vm_compute; reflexivity |].
    split; vm_compute; reflexivity.
  - intros self idx h. split; [apply at_no_throw | apply operator_index_no_throw].
Qed.

(* ===================================================================== *)
(** * Truncated buffers and failed allocations *)
(* ===================================================================== *)

(** The claim C3 as stated fails on the caller's 48-byte buffer whose header
    announces one component: the copying constructor does not reject it.  It
    allocates 50 bytes in block 1 and then runs off the end of block 0. *)
Lemma C3_counterexample :
  read truncated_heap (Addr 0%nat 0) sizeof_TriggerRecordHeaderData
  = Some (header_to_bytes two_in_one_header)
  /\ num_requested_components
       (header_from_bytes (header_to_bytes two_in_one_header)) = 1
  /\ read truncated_heap (Addr 0%nat 0) (total_size (ComponentRequest := StubRequest) 1)
     = None
  /\ TriggerRecordHeader_from_buffer (ComponentRequest := StubRequest)
       (Addr 0%nat 0) true truncated_heap
     = Undefined
         (Heap (<[1%nat := replicate 50 Byte.x00]> (cells truncated_heap))
               (1024 - 50))
  /\ ~ rejects (TriggerRecordHeader_from_buffer (ComponentRequest := StubRequest)
                  (Addr 0%nat 0) true truncated_heap)
               truncated_heap.
Proof.
  split; [vm_compute; reflexivity |].
  split; [vm_compute; reflexivity |].
  split; [vm_compute; reflexivity |].
  split; [vm_compute; reflexivity |].
  apply no_throw_not_rejects, from_buffer_no_throw.
Qed.

Section Truncated.

Context {ComponentRequest : Type} `{!TriviallyCopyable ComponentRequest}.

(** C3, amended: on a buffer that holds a header but fewer bytes than
    sizeof(header) + num_requested_components * sizeof(element), the copying
    constructor makes no check and raises no error: it calls [malloc] for that
    size, which allocates a block when the allocator can provide it, and the
    [memcpy] that follows reads past the end of the buffer, which is undefined
    behaviour. *)
Theorem C3_truncated_buffer_is_not_checked h p hb :
  read h p sizeof_TriggerRecordHeaderData = Some hb ->
  total_size (num_requested_components (header_from_bytes hb)) < size_max ->
  read h p (total_size (num_requested_components (header_from_bytes hb))) = None ->
  TriggerRecordHeader_from_buffer p true h
  = Undefined
      (heap_of (malloc (total_size (num_requested_components
                                      (header_from_bytes hb))) h))
  /\ throws (TriggerRecordHeader_from_buffer p true h) = false
  /\ (total_size (num_requested_components (header_from_bytes hb)) <= available h ->
      cells h !! fresh (dom (cells h)) = None
      /\ cells (heap_of (malloc (total_size (num_requested_components
                                               (header_from_bytes hb))) h))
           !! fresh (dom (cells h))
         = Some (replicate
                   (Z.to_nat (total_size (num_requested_components
                                            (header_from_bytes hb))))
                   Byte.x00)).
Proof.
  intros Hhb Hmax Htrunc.
  pose proof (count_bound hb) as Hn.
  set (n := num_requested_components (header_from_bytes hb)) in *.
  split; [| split; [apply from_buffer_no_throw |]].
  - unfold TriggerRecordHeader_from_buffer. cbn [negb].
    unfold bind at 1.
    rewrite (load_field _ _ _ _ _ Hhb) by (vm_compute; intuition discriminate).
    change (field offsetof_num_requested_components 8 hb) with n.
    rewrite size_of_count by lia.
    unfold bind at 1.
    destruct (Z_le_gt_dec (total_size n) (available h)) as [Hav | Hav].
    + rewrite malloc_ok by assumption. cbn [heap_of].
      unfold bind, memcpy, bind, load_bytes.
      destruct p as [| bo ofs]; [discriminate |].
      replace (read _ (Addr bo ofs) (total_size n)) with (@None (list byte));
        [reflexivity |].
      rewrite <- Htrunc. cbn [read cells].
      rewrite lookup_insert_ne; [reflexivity |].
      intros Heq. cbn [read] in Hhb. rewrite <- Heq, fresh_block in Hhb.
      discriminate.
    + rewrite malloc_fails by lia. cbn [heap_of].
      unfold bind, memcpy, bind, load_bytes. rewrite Htrunc. reflexivity.
  - intros Hav. split; [apply fresh_block |].
    rewrite malloc_ok by assumption. cbn [heap_of cells].
    apply lookup_insert_eq.
Qed.

End Truncated.

Lemma C3_witness :
  TriggerRecordHeader_from_buffer (ComponentRequest := StubRequest)
    (Addr 0%nat 0) true truncated_heap
  = Undefined
      (heap_of (malloc (total_size (ComponentRequest := StubRequest)
                          (num_requested_components
                             (header_from_bytes
                                (header_to_bytes two_in_one_header))))
                  truncated_heap)).
Proof.
  apply (C3_truncated_buffer_is_not_checked (ComponentRequest := StubRequest)
           truncated_heap (Addr 0%nat 0) (header_to_bytes two_in_one_header)).
  - vm_compute. reflexivity.
  - vm_compute. reflexivity.
  - vm_compute. reflexivity.
Defined.

Section FailedAllocation.

Context {ComponentRequest : Type} `{!TriviallyCopyable ComponentRequest}.

(** When [malloc] returns a null pointer the first constructor writes the
    header through it. *)
Lemma from_components_malloc_fails (E : list ComponentRequest) indeterminate h :
  available h
  < size_add sizeof_TriggerRecordHeaderData
      (size_mul (Z.of_nat (length E)) sizeof_ComponentRequest) ->
  TriggerRecordHeader_from_components E indeterminate h = Undefined h.
Proof.
  intros Hav. unfold TriggerRecordHeader_from_components.
  unfold bind at 1. rewrite malloc_fails by assumption. reflexivity.
Qed.

(** And the copying constructor hands it to [memcpy] as the destination. *)
Lemma from_buffer_malloc_fails h p hb :
  read h p sizeof_TriggerRecordHeaderData = Some hb ->
  available h
  < size_add (size_mul (num_requested_components (header_from_bytes hb))
                sizeof_ComponentRequest)
      sizeof_TriggerRecordHeaderData ->
  TriggerRecordHeader_from_buffer p true h = Undefined h.
Proof.
  intros Hhb Hav. unfold TriggerRecordHeader_from_buffer. cbn [negb].
  unfold bind at 1.
  rewrite (load_field _ _ _ _ _ Hhb) by (vm_compute; intuition discriminate).
  change (field offsetof_num_requested_components 8 hb)
    with (num_requested_components (header_from_bytes hb)).
  set (size := size_add _ _) in *.
  unfold bind at 1. rewrite malloc_fails by assumption.
  unfold bind, memcpy, bind, load_bytes, store_bytes.
  destruct (read h p size); reflexivity.
Qed.

End FailedAllocation.

(** C9: neither owning constructor tests what [malloc] returned.  With an
    allocator that has nothing left, building a record from one component, or
    copying the caller's buffer, dereferences the null pointer (undefined
    behaviour) where the claim has a MemoryAllocationFailed error; no
    constructor ever throws. *)
Theorem C9_failed_allocation_is_dereferenced :
  TriggerRecordHeader_from_components [stub Byte.x01 Byte.x02] stack_garbage
    exhausted_heap
  = Undefined exhausted_heap
  /\ TriggerRecordHeader_from_buffer (ComponentRequest := StubRequest)
       (Addr 0%nat 0) true two_in_one_exhausted
     = Undefined two_in_one_exhausted
  /\ (forall (E : list StubRequest) indeterminate h,
        throws (TriggerRecordHeader_from_components E indeterminate h) = false)
  /\ (forall p copy_from_buffer h,
        throws (TriggerRecordHeader_from_buffer (ComponentRequest := StubRequest)
                  p copy_from_buffer h) = false).
Proof.
  split; [apply from_components_malloc_fails; reflexivity |].
  split.
  - apply (from_buffer_malloc_fails (ComponentRequest := StubRequest)
             two_in_one_exhausted (Addr 0%nat 0)
             (header_to_bytes two_in_one_header)); reflexivity.
  - split; intros; [apply from_components_no_throw | apply from_buffer_no_throw].
Qed.

(* ===================================================================== *)
(** * Borrowing and destruction *)
(* ===================================================================== *)

Section Ownership.

Context {ComponentRequest : Type} `{!TriviallyCopyable ComponentRequest}.

(** C6: wrapping a buffer with [copy == false] keeps the caller's pointer
    ([get_storage_location()] returns it), owns nothing and leaves the heap as
    it is.  Destroying a record whose buffer is a live block releases that
    block if and only if the record owns it: a borrowing record releases
    nothing, an owning one releases exactly its block. *)
Theorem C6_borrowing_and_destruction :
  (forall buffer h,
     exists self,
       TriggerRecordHeader_from_buffer buffer false h = Returns self h
       /\ get_storage_location self = buffer
       /\ alloc_ self = false)
  /\ (forall self h, alloc_ self = false -> destructor self h = Returns tt h)
  /\ (forall self h b bs,
        data_arr_ self = Addr b 0 -> cells h !! b = Some bs ->
        exists h',
          destructor self h = Returns tt h'
          /\ (cells h' !! b = None <-> alloc_ self = true)
          /\ (forall b', b' <> b -> cells h' !! b' = cells h !! b')).
Proof.
  split; [| split].
  - intros buffer h. eexists. split; [apply from_buffer_borrow |].
    split; reflexivity.
  - intros self h Hb. unfold destructor. rewrite Hb. reflexivity.
  - intros self h b bs Hp Hlive. unfold destructor.
    destruct (alloc_ self).
    + rewrite Hp, (free_live _ _ _ Hlive). eexists. split; [reflexivity |].
      cbn [cells]. split.
      * split; [reflexivity | intros _; apply lookup_delete_eq].
      * intros b' Hne. apply lookup_delete_ne. congruence.
    + exists h. split; [reflexivity |]. split; [| reflexivity].
      rewrite Hlive. split; discriminate.
Qed.

End Ownership.

Lemma C6_witness :
  exists h',
    destructor borrowing two_in_one_heap = Returns tt h'
    /\ (cells h' !! 0%nat = None <-> alloc_ borrowing = true).
Proof.
  destruct (proj2 (proj2 (C6_borrowing_and_destruction
                            (ComponentRequest := StubRequest)))
              borrowing two_in_one_heap 0%nat
              (header_to_bytes two_in_one_header
               ++ to_bytes (stub Byte.x0a Byte.x0b)
               ++ to_bytes (stub Byte.x0c Byte.x0d)))
    as (h' & H1 & H2 & _).
  - reflexivity.
  - vm_compute. reflexivity.
  - exists h'. exact (conj H1 H2).
Defined.

Lemma C8_witness :
  GeoID.operator_lt (GeoID.mk 1 5) (GeoID.mk 2 0) = true.
Proof.
  apply (proj1 (proj2 (proj2 C8_GeoID_strict_total_order))
           (GeoID.mk 1 5) (GeoID.mk 1 6) (GeoID.mk 2 0)); reflexivity.
Defined.

(* ===================================================================== *)
(** * Mutations of a valid record *)
(* ===================================================================== *)

Lemma ptr_add_0 p : p +ₚ 0 = p.
Proof. destruct p; simpl; [reflexivity | f_equal; lia]. Qed.

(** Assigning a bit below 32 in a 32-bit word gives a 32-bit word. *)
Lemma bitset_assign_small e k v e' :
  0 <= e < 2 ^ 32 -> bitset_assign e k v = Some e' ->
  e' mod 2 ^ 32 = e'
  /\ e' = (if v then Z.setbit e k else Z.clearbit e k).
Proof.
  intros He. unfold bitset_assign.
  destruct ((0 <=? k) && (k <? 32)) eqn:Hk; [| discriminate].
  intros [= <-]. split; [| reflexivity].
  apply Z.bits_inj'. intros i Hi.
  destruct (Z_lt_le_dec i 32) as [Hlt | Hge].
  - apply Z.mod_pow2_bits_low. lia.
  - rewrite Z.mod_pow2_bits_high by lia.
    assert (Z.testbit e i = false) as Hei
      by (rewrite <- (Z.mod_small e (2 ^ 32)) by lia;
          apply Z.mod_pow2_bits_high; lia).
    symmetry. destruct v.
    + rewrite Z.setbit_neq by lia. exact Hei.
    + rewrite Z.clearbit_neq by lia. exact Hei.
Qed.

(** The header after a write into it: the written field holds the value,
    reduced to its width, and the fields beside it are as before. *)
Lemma written_field h p hb o (n : nat) v h' hb' :
  read h p sizeof_TriggerRecordHeaderData = Some hb ->
  write h (p +ₚ o) (le_split n v) = Some h' ->
  read h' p sizeof_TriggerRecordHeaderData = Some hb' ->
  0 <= o -> o + Z.of_nat n <= sizeof_TriggerRecordHeaderData ->
  field o n hb' = v mod 2 ^ (Z.of_nat n * 8)
  /\ forall o' (n' : nat),
       0 <= o' -> o' + Z.of_nat n' <= sizeof_TriggerRecordHeaderData ->
       o' + Z.of_nat n' <= o \/ o + Z.of_nat n <= o' ->
       field o' n' hb' = field o' n' hb.
Proof.
  intros Hhb Hw Hhb' Ho Hn. split.
  - pose proof (write_read_same _ _ _ _ Hw) as Hr.
    rewrite length_le_split in Hr.
    rewrite (read_ptr_add_ok _ _ _ _ o (Z.of_nat n) Hhb') in Hr by lia.
    injection Hr as Hr. rewrite Nat2Z.id in Hr.
    unfold field. rewrite Hr. apply le_combine_split.
  - intros o' n' Ho' Hn' Hd.
    apply (field_frame h h' p); try assumption.
    apply (write_frame _ _ _ _ _ _ _ Hw).
    rewrite length_le_split. exact Hd.
Qed.

(** A write behind the header leaves the header. *)
Lemma unwritten_header h p hb o new h' :
  read h p sizeof_TriggerRecordHeaderData = Some hb ->
  write h (p +ₚ o) new = Some h' ->
  sizeof_TriggerRecordHeaderData <= o ->
  read h' p sizeof_TriggerRecordHeaderData = Some hb.
Proof.
  intros Hhb Hw Ho. rewrite <- Hhb, <- (ptr_add_0 p).
  apply (write_frame _ _ _ _ _ _ _ Hw). left. lia.
Qed.

Section Mutations.

Context {ComponentRequest : Type} `{!TriviallyCopyable ComponentRequest}.

Implicit Types (h : heap) (self : TriggerRecordHeader).

(** Every applicable mutation of a record whose buffer holds what its header
    announces returns; the buffer is as long as before, and its header is
    the header before with the one member assigned. *)
Lemma mutate_spec self h hb all (m : mutation) :
  read h (data_arr_ self) sizeof_TriggerRecordHeaderData = Some hb ->
  read h (data_arr_ self)
    (total_size (num_requested_components (header_from_bytes hb))) = Some all ->
  applicable (num_requested_components (header_from_bytes hb)) m = true ->
  exists h' hb' all',
    mutate self m h = Returns tt h'
    /\ read h' (data_arr_ self) sizeof_TriggerRecordHeaderData = Some hb'
    /\ header_from_bytes hb' = header_after m (header_from_bytes hb)
    /\ read h' (data_arr_ self)
         (total_size (num_requested_components (header_from_bytes hb)))
       = Some all'.
Proof.
  intros Hhb Hall Hm.
  assert (forall (n : nat) o v,
            0 <= o -> o + Z.of_nat n <= sizeof_TriggerRecordHeaderData ->
            exists h' hb' all',
              store_uint n (header_ self +ₚ o) v h = Returns tt h'
              /\ read h' (data_arr_ self) sizeof_TriggerRecordHeaderData
                 = Some hb'
              /\ (field o n hb' = v mod 2 ^ (Z.of_nat n * 8)
                  /\ forall o' (n' : nat),
                       0 <= o' ->
                       o' + Z.of_nat n' <= sizeof_TriggerRecordHeaderData ->
                       o' + Z.of_nat n' <= o \/ o + Z.of_nat n <= o' ->
                       field o' n' hb' = field o' n' hb)
              /\ read h' (data_arr_ self)
                   (total_size (num_requested_components (header_from_bytes hb)))
                 = Some all') as Hstore.
  { intros n o v Ho Hn.
    destruct (store_field_spec h (data_arr_ self) hb o n v Hhb Ho Hn)
      as (h' & Hs & Hw & _).
    destruct (write_read_is_Some _ _ _ _ _ _ _ Hw Hhb) as [hb' Hhb'].
    destruct (write_read_is_Some _ _ _ _ _ _ _ Hw Hall) as [all' Hall'].
    exists h', hb', all'. split; [exact Hs |]. split; [exact Hhb' |].
    split; [| exact Hall'].
    exact (written_field _ _ _ _ _ _ _ _ Hhb Hw Hhb' Ho Hn). }
  destruct m as [v | v | v | bits | bit value | v | idx c];
    cbn [mutate applicable header_after] in *.
  - destruct (Hstore 8%nat offsetof_trigger_number v)
      as (h' & hb' & all' & Hs & Hhb' & [Hv Hf] & Hall');
      [vm_compute; discriminate .. |].
    exists h', hb', all'. repeat (split; [assumption |]). split; [| assumption].
    unfold header_from_bytes, with_trigger_number; cbn [trigger_number
      trigger_record_header_marker version trigger_timestamp
      num_requested_components run_number error_bits trigger_type unused].
    f_equal; first [exact Hv | apply Hf; vm_compute; intuition discriminate].
  - destruct (Hstore 8%nat offsetof_trigger_timestamp v)
      as (h' & hb' & all' & Hs & Hhb' & [Hv Hf] & Hall');
      [vm_compute; discriminate .. |].
    exists h', hb', all'. repeat (split; [assumption |]). split; [| assumption].
    unfold header_from_bytes, with_trigger_timestamp; cbn [trigger_number
      trigger_record_header_marker version trigger_timestamp
      num_requested_components run_number error_bits trigger_type unused].
    f_equal; first [exact Hv | apply Hf; vm_compute; intuition discriminate].
  - destruct (Hstore 4%nat offsetof_run_number v)
      as (h' & hb' & all' & Hs & Hhb' & [Hv Hf] & Hall');
      [vm_compute; discriminate .. |].
    exists h', hb', all'. repeat (split; [assumption |]). split; [| assumption].
    unfold header_from_bytes, with_run_number; cbn [trigger_number
      trigger_record_header_marker version trigger_timestamp
      num_requested_components run_number error_bits trigger_type unused].
    f_equal; first [exact Hv | apply Hf; vm_compute; intuition discriminate].
  - destruct (Hstore 4%nat offsetof_error_bits bits)
      as (h' & hb' & all' & Hs & Hhb' & [Hv Hf] & Hall');
      [vm_compute; discriminate .. |].
    exists h', hb', all'. repeat (split; [assumption |]). split; [| assumption].
    unfold header_from_bytes, with_error_bits; cbn [trigger_number
      trigger_record_header_marker version trigger_timestamp
      num_requested_components run_number error_bits trigger_type unused].
    f_equal; first [exact Hv | apply Hf; vm_compute; intuition discriminate].
  - assert (0 <= bit < 32) as Hbit by lia.
    destruct (set_error_bit_spec self h hb bit value Hhb Hbit)
      as (e' & h' & He' & Hset & Hw & _).
    destruct (write_read_is_Some _ _ _ _ _ _ _ Hw Hhb) as [hb' Hhb'].
    destruct (write_read_is_Some _ _ _ _ _ _ _ Hw Hall) as [all' Hall'].
    destruct (written_field _ _ _ _ 4%nat _ _ _ Hhb Hw Hhb') as [Hv Hf];
      [vm_compute; discriminate .. |].
    destruct (bitset_assign_small _ _ _ _
                (field_bound offsetof_error_bits 4 hb) He') as [Hsmall Hval].
    exists h', hb', all'. repeat (split; [assumption |]). split; [| assumption].
    unfold header_from_bytes, with_error_bits; cbn [trigger_number
      trigger_record_header_marker version trigger_timestamp
      num_requested_components run_number error_bits trigger_type unused].
    f_equal; try (apply Hf; vm_compute; intuition discriminate).
    rewrite Hv. change (Z.of_nat 4 * 8) with 32. rewrite Hsmall. exact Hval.
  - destruct (Hstore 2%nat offsetof_trigger_type v)
      as (h' & hb' & all' & Hs & Hhb' & [Hv Hf] & Hall');
      [vm_compute; discriminate .. |].
    exists h', hb', all'. repeat (split; [assumption |]). split; [| assumption].
    unfold header_from_bytes, with_trigger_type; cbn [trigger_number
      trigger_record_header_marker version trigger_timestamp
      num_requested_components run_number error_bits trigger_type unused].
    f_equal; first [exact Hv | apply Hf; vm_compute; intuition discriminate].
  - assert (0 <= idx < num_requested_components (header_from_bytes hb))
      as Hidx by lia.
    pose proof (element_read _ _ _ _ idx Hall Hidx) as Hel.
    destruct (write_ok h (component_ptr self idx) (to_bytes c)
                (take sizeof
                   (drop (Z.to_nat (sizeof_TriggerRecordHeaderData
                                    + idx * sizeof_ComponentRequest)) all)))
      as [h' Hw]; [rewrite to_bytes_length_Z; exact Hel |].
    destruct (write_read_is_Some _ _ _ _ _ _ _ Hw Hall) as [all' Hall'].
    exists h', hb, all'.
    split.
    { unfold bind. rewrite (operator_index_spec _ _ _ Hhb _ _ Hel).
      apply store_bytes_write, Hw. }
    split; [| split; [reflexivity | exact Hall']].
    unfold component_ptr, header_ in Hw. rewrite ptr_add_add in Hw.
    apply (unwritten_header _ _ _ _ _ _ Hhb Hw).
    pose proof sizeof_ComponentRequest_pos. nia.
Qed.

End Mutations.

Section MutationProperties.

Context {ComponentRequest : Type} `{!TriviallyCopyable ComponentRequest}.

Implicit Types (h : heap) (self : TriggerRecordHeader).

Lemma header_after_count (m : @mutation ComponentRequest) d :
  num_requested_components (header_after m d) = num_requested_components d.
Proof. destruct m; reflexivity. Qed.

Lemma valid_header h self hdr :
  valid h self = true -> get_header self h = Returns hdr h ->
  exists hb all,
    hdr = header_from_bytes hb
    /\ read h (data_arr_ self) sizeof_TriggerRecordHeaderData = Some hb
    /\ total_size (num_requested_components hdr) < size_max
    /\ read h (data_arr_ self) (total_size (num_requested_components hdr))
       = Some all.
Proof.
  intros (hb & all & Hhb & Hmax & Hall)%valid_inv Hhdr.
  rewrite (get_header_spec _ _ _ Hhb) in Hhdr. injection Hhdr as <-.
  exists hb, all. auto.
Qed.

(** The setters and the element assignment, read on the header struct: on a
    valid record every applicable mutation returns, and [get_header()] then
    gives the header of before with the one member assigned (the value
    converted to the member's type); an element assignment leaves the
    header. *)
Theorem mutation_updates_the_header self h hdr (m : mutation) :
  valid h self = true ->
  get_header self h = Returns hdr h ->
  applicable (num_requested_components hdr) m = true ->
  exists h',
    mutate self m h = Returns tt h'
    /\ get_header self h' = Returns (header_after m hdr) h'.
Proof.
  intros Hvalid Hhdr Hm.
  destruct (valid_header h self hdr Hvalid Hhdr)
    as (hb & all & -> & Hhb & Hmax & Hall).
  destruct (mutate_spec self h hb all m Hhb Hall Hm)
    as (h' & hb' & all' & Hmut & Hhb' & Hafter & _).
  exists h'. split; [exact Hmut |].
  rewrite (get_header_spec _ _ _ Hhb'), Hafter. reflexivity.
Qed.

(** No mutation resizes a record: after every applicable mutation of a valid
    record the record is valid, with the same number of components and the
    same total size. *)
Theorem mutation_keeps_the_record_valid self h hdr size (m : mutation) :
  valid h self = true ->
  get_header self h = Returns hdr h ->
  get_total_size_bytes self h = Returns size h ->
  applicable (num_requested_components hdr) m = true ->
  exists h',
    mutate self m h = Returns tt h'
    /\ valid h' self = true
    /\ get_num_requested_components self h'
       = Returns (num_requested_components hdr) h'
    /\ get_total_size_bytes self h' = Returns size h'.
Proof.
  intros Hvalid Hhdr Hsize Hm.
  destruct (valid_header h self hdr Hvalid Hhdr)
    as (hb & all & -> & Hhb & Hmax & Hall).
  destruct (mutate_spec self h hb all m Hhb Hall Hm)
    as (h' & hb' & all' & Hmut & Hhb' & Hafter & Hall').
  assert (num_requested_components (header_from_bytes hb')
          = num_requested_components (header_from_bytes hb)) as Hcount
    by (rewrite Hafter; apply header_after_count).
  exists h'. split; [exact Hmut |]. split; [| split].
  - unfold valid. rewrite Hhb'. cbv zeta. rewrite Hcount, Hall'.
    apply andb_true_iff. split; [apply Z.ltb_lt; exact Hmax | reflexivity].
  - rewrite (get_num_requested_components_spec _ _ _ Hhb'), Hcount.
    reflexivity.
  - rewrite (get_total_size_bytes_spec _ _ _ Hhb'), Hcount.
    rewrite (get_total_size_bytes_spec _ _ _ Hhb) in Hsize.
    injection Hsize as <-. reflexivity.
Qed.

(** Assigning through [operator[]] and reading with [at]: on a valid record
    and an index below the count, the assigned component is what [at] returns
    at that index, and [at] returns what it returned before at every other
    index below the count. *)
Theorem element_assignment_then_at self h hdr idx (c : ComponentRequest) :
  valid h self = true ->
  get_header self h = Returns hdr h ->
  0 <= idx < num_requested_components hdr ->
  exists ref h',
    operator_index self idx h = Returns ref h
    /\ assign_component ref c h = Returns tt h'
    /\ at_ self idx h' = Returns c h'
    /\ forall j, 0 <= j < num_requested_components hdr -> j <> idx ->
         exists c', at_ self j h = Returns c' h
                    /\ at_ self j h' = Returns c' h'.
Proof.
  intros Hvalid Hhdr Hidx.
  destruct (valid_header h self hdr Hvalid Hhdr)
    as (hb & all & -> & Hhb & Hmax & Hall).
  set (n := num_requested_components (header_from_bytes hb)) in *.
  pose proof (element_read _ _ _ _ idx Hall Hidx) as Hel.
  destruct (write_ok h (component_ptr self idx) (to_bytes c)
              (take sizeof
                 (drop (Z.to_nat (sizeof_TriggerRecordHeaderData
                                  + idx * sizeof_ComponentRequest)) all)))
    as [h' Hw]; [rewrite to_bytes_length_Z; exact Hel |].
  exists (component_ptr self idx), h'.
  split; [apply (operator_index_spec _ _ _ Hhb _ _ Hel) |].
  split; [apply store_bytes_write, Hw |].
  pose proof sizeof_ComponentRequest_pos as Hsz.
  assert (read h' (data_arr_ self) sizeof_TriggerRecordHeaderData = Some hb)
    as Hhb'.
  { pose proof Hw as Hw'. unfold component_ptr, header_ in Hw'.
    rewrite ptr_add_add in Hw'.
    apply (unwritten_header _ _ _ _ _ _ Hhb Hw'). nia. }
  split.
  - replace (Returns c h') with (Returns (from_bytes (to_bytes c)) h')
      by (rewrite from_to_bytes; reflexivity).
    apply (at_spec _ _ _ Hhb').
    rewrite <- to_bytes_length_Z with (c := c).
    apply (write_read_same _ _ _ _ Hw).
  - intros j Hj Hne.
    pose proof (element_read _ _ _ _ j Hall Hj) as Hej.
    eexists. split; [apply (at_spec _ _ _ Hhb _ _ Hej) |].
    apply (at_spec _ _ _ Hhb'). rewrite <- Hej.
    unfold component_ptr, header_ in *. rewrite !ptr_add_add in *.
    apply (write_frame _ _ _ _ _ _ _ Hw).
    rewrite to_bytes_length_Z. nia.
Qed.

End MutationProperties.

Lemma mutation_updates_the_header_witness :
  exists h',
    mutate (ComponentRequest := StubRequest) borrowing (SetRunNumber 7)
      two_in_one_heap
    = Returns tt h'
    /\ get_header borrowing h'
       = Returns (with_run_number two_in_one_header 7) h'.
Proof.
  destruct (mutation_updates_the_header (ComponentRequest := StubRequest)
              borrowing two_in_one_heap two_in_one_header (SetRunNumber 7))
    as (h' & H1 & H2).
  - vm_compute. reflexivity.
  - vm_compute. reflexivity.
  - reflexivity.
  - exists h'. exact (conj H1 H2).
Defined.

Lemma mutation_keeps_the_record_valid_witness :
  exists h',
    mutate borrowing (AssignComponent 0 (stub Byte.xff Byte.xee)) two_in_one_heap
    = Returns tt h'
    /\ valid (ComponentRequest := StubRequest) h' borrowing = true
    /\ get_total_size_bytes (ComponentRequest := StubRequest) borrowing h'
       = Returns 50 h'.
Proof.
  destruct (mutation_keeps_the_record_valid (ComponentRequest := StubRequest)
              borrowing two_in_one_heap two_in_one_header 50
              (AssignComponent 0 (stub Byte.xff Byte.xee)))
    as (h' & H1 & H2 & _ & H4).
  - vm_compute. reflexivity.
  - vm_compute. reflexivity.
  - vm_compute. reflexivity.
  - reflexivity.
  - exists h'. exact (conj H1 (conj H2 H4)).
Defined.

Lemma element_assignment_then_at_witness :
  exists ref h',
    operator_index (ComponentRequest := StubRequest) borrowing 0 two_in_one_heap
    = Returns ref two_in_one_heap
    /\ assign_component ref (stub Byte.xff Byte.xee) two_in_one_heap
       = Returns tt h'
    /\ at_ borrowing 0 h' = Returns (stub Byte.xff Byte.xee) h'.
Proof.
  destruct (element_assignment_then_at (ComponentRequest := StubRequest)
              borrowing two_in_one_heap two_in_one_header 0
              (stub Byte.xff Byte.xee))
    as (ref & h' & H1 & H2 & H3 & _).
  - vm_compute. reflexivity.
  - vm_compute. reflexivity.
  - vm_compute. split; [discriminate | reflexivity].
  - exists ref, h'. exact (conj H1 (conj H2 H3)).
Defined.

(* ===================================================================== *)
(** * The record the first constructor builds *)
(* ===================================================================== *)

Section Built.

Context {ComponentRequest : Type} `{!TriviallyCopyable ComponentRequest}.

Implicit Types (E : list ComponentRequest) (h : heap)
  (self : TriggerRecordHeader).

Lemma components_length E :
  length (concat (map to_bytes E)) = (length E * sizeof)%nat.
Proof.
  induction E as [| c E IH]; simpl; [reflexivity |].
  rewrite length_app, to_bytes_length, IH. reflexivity.
Qed.

(** [at] and [operator[]] where the element is not inside the block. *)
Lemma at_outside_the_block self h hb idx :
  read h (data_arr_ self) sizeof_TriggerRecordHeaderData = Some hb ->
  read h (component_ptr self idx) sizeof_ComponentRequest = None ->
  at_ self idx h = Undefined h /\ operator_index self idx h = Undefined h.
Proof.
  intros Hhb Hnone. unfold at_, operator_index, bind, header_.
  rewrite (load_field _ _ _ _ _ Hhb) by (vm_compute; intuition discriminate).
  unfold load_bytes.
  destruct (_ <=? idx); unfold ret; rewrite Hnone; split; reflexivity.
Qed.

(** What the first constructor leaves in the heap, with the reads of the
    new block. *)
Lemma from_components_block E indeterminate h :
  total_size (Z.of_nat (length E)) < size_max ->
  total_size (Z.of_nat (length E)) <= available h ->
  exists self h' b hb bs,
    TriggerRecordHeader_from_components E indeterminate h = Returns self h'
    /\ self = {| data_arr_ := Addr b 0; alloc_ := true |}
    /\ b = fresh (dom (cells h))
    /\ h' = Heap (<[b := bs]> (cells h))
              (available h - total_size (Z.of_nat (length E)))
    /\ Z.of_nat (length bs) = total_size (Z.of_nat (length E))
    /\ read h' (data_arr_ self) sizeof_TriggerRecordHeaderData = Some hb
    /\ num_requested_components (header_from_bytes hb) = Z.of_nat (length E)
    /\ read h' (data_arr_ self) (total_size (Z.of_nat (length E))) = Some bs.
Proof.
  intros Hmax Hav. rewrite from_components_spec by assumption.
  set (hdr := set_num_requested_components _ _).
  set (bs := header_to_bytes hdr ++ concat (map to_bytes E)).
  assert (Z.of_nat (length bs) = total_size (Z.of_nat (length E))) as Hlen.
  { subst bs. rewrite length_app, header_to_bytes_length, components_length.
    rewrite total_size_nat. reflexivity. }
  destruct (copied_reads (cells h)
              (available h - total_size (Z.of_nat (length E)))
              (fresh (dom (cells h))) bs (Z.of_nat (length E)))
    as [Hall Hhb]; [lia | exact Hlen |].
  eexists _, _, _, (header_to_bytes hdr), bs.
  split; [reflexivity |]. split; [reflexivity |]. split; [reflexivity |].
  split; [reflexivity |]. split; [exact Hlen |].
  split; [| split; [| exact Hall]].
  - cbn [data_arr_]. rewrite Hhb. reflexivity.
  - rewrite <- (app_nil_r (header_to_bytes hdr)), header_from_to_bytes.
    cbn [header_wrap hdr set_num_requested_components num_requested_components].
    apply Z.mod_small.
    unfold total_size, sizeof_TriggerRecordHeaderData, size_max in *.
    pose proof sizeof_ComponentRequest_pos. nia.
Qed.

(** The first constructor establishes the invariant of the class: the record
    owns a block that was not live before, of exactly
    sizeof(header) + n * sizeof(ComponentRequest) bytes, which is what
    [get_total_size_bytes()] returns; the record is valid, the allocator has
    that many bytes less, and no other block changed. *)
Theorem from_components_builds_a_valid_record E indeterminate h :
  total_size (Z.of_nat (length E)) < size_max ->
  total_size (Z.of_nat (length E)) <= available h ->
  exists self h' b bs,
    TriggerRecordHeader_from_components E indeterminate h = Returns self h'
    /\ alloc_ self = true
    /\ get_storage_location self = Addr b 0
    /\ cells h !! b = None
    /\ cells h' !! b = Some bs
    /\ Z.of_nat (length bs) = total_size (Z.of_nat (length E))
    /\ valid h' self = true
    /\ get_total_size_bytes self h'
       = Returns (total_size (Z.of_nat (length E))) h'
    /\ available h' = available h - total_size (Z.of_nat (length E))
    /\ (forall b', b' <> b -> cells h' !! b' = cells h !! b').
Proof.
  intros Hmax Hav.
  destruct (from_components_block E indeterminate h Hmax Hav)
    as (self & h' & b & hb & bs & Hrun & Hself & Hb & Hh' & Hlen & Hhb & Hn & Hall).
  exists self, h', b, bs.
  split; [exact Hrun |].
  split; [subst self; reflexivity |].
  split; [subst self; reflexivity |].
  split; [subst b; apply fresh_block |].
  split; [subst h'; apply lookup_insert_eq |].
  split; [exact Hlen |].
  split; [| split; [| split]].
  - unfold valid. rewrite Hhb. cbv zeta. rewrite Hn, Hall.
    apply andb_true_iff. split; [apply Z.ltb_lt; exact Hmax | reflexivity].
  - rewrite (get_total_size_bytes_spec _ _ _ Hhb), Hn.
    f_equal. apply size_of_count; lia.
  - subst h'. reflexivity.
  - intros b' Hne. subst h'. apply lookup_insert_ne. congruence.
Qed.

(** On the record built from a vector of [n] components every index from [n]
    on is outside the block the record owns: [at] and [operator[]] are
    undefined behaviour there, not an error and not a value. *)
Theorem from_components_at_out_of_range E indeterminate h :
  total_size (Z.of_nat (length E)) < size_max ->
  total_size (Z.of_nat (length E)) <= available h ->
  exists self h',
    TriggerRecordHeader_from_components E indeterminate h = Returns self h'
    /\ forall idx, Z.of_nat (length E) <= idx ->
         at_ self idx h' = Undefined h'
         /\ operator_index self idx h' = Undefined h'.
Proof.
  intros Hmax Hav.
  destruct (from_components_block E indeterminate h Hmax Hav)
    as (self & h' & b & hb & bs & Hrun & Hself & Hb & Hh' & Hlen & Hhb & Hn & Hall).
  exists self, h'. split; [exact Hrun |].
  intros idx Hidx. apply (at_outside_the_block _ _ hb); [exact Hhb |].
  subst self h'. cbn [component_ptr header_ data_arr_ ptr_add].
  rewrite read_block. apply slice_None.
  pose proof sizeof_ComponentRequest_pos.
  unfold total_size in Hlen. nia.
Qed.

(** Building a record and destroying it leaves the heap exactly as it was:
    the block is released and the allocator has its bytes back. *)
Theorem from_components_then_destructor E indeterminate h :
  total_size (Z.of_nat (length E)) < size_max ->
  total_size (Z.of_nat (length E)) <= available h ->
  exists self h',
    TriggerRecordHeader_from_components E indeterminate h = Returns self h'
    /\ destructor self h' = Returns tt h.
Proof.
  intros Hmax Hav.
  destruct (from_components_block E indeterminate h Hmax Hav)
    as (self & h' & b & hb & bs & Hrun & Hself & Hb & Hh' & Hlen & Hhb & Hn & Hall).
  exists self, h'. split; [exact Hrun |].
  subst self. unfold destructor. cbn [alloc_ data_arr_].
  rewrite (free_live h' b bs) by (subst h'; apply lookup_insert_eq).
  f_equal. subst h'. cbn [cells available].
  rewrite delete_insert_id by (subst b; apply fresh_block).
  rewrite Hlen. replace (available h - _ + _) with (available h) by lia.
  apply heap_eta.
Qed.

End Built.

Lemma from_components_builds_a_valid_record_witness :
  exists self h' b bs,
    TriggerRecordHeader_from_components
      [stub Byte.x01 Byte.x02; stub Byte.x03 Byte.x04] stack_garbage empty_heap
    = Returns self h'
    /\ get_storage_location self = Addr b 0
    /\ cells h' !! b = Some bs
    /\ Z.of_nat (length bs) = 52
    /\ valid (ComponentRequest := StubRequest) h' self = true.
Proof.
  destruct (from_components_builds_a_valid_record
              [stub Byte.x01 Byte.x02; stub Byte.x03 Byte.x04]
              stack_garbage empty_heap)
    as (self & h' & b & bs & H1 & _ & H3 & _ & H5 & H6 & H7 & _).
  - reflexivity.
  - vm_compute. discriminate.
  - exists self, h', b, bs. exact (conj H1 (conj H3 (conj H5 (conj H6 H7)))).
Defined.

Lemma from_components_at_out_of_range_witness :
  exists self h',
    TriggerRecordHeader_from_components (ComponentRequest := StubRequest)
      [] stack_garbage empty_heap
    = Returns self h'
    /\ at_ (ComponentRequest := StubRequest) self 0 h' = Undefined h'.
Proof.
  destruct (from_components_at_out_of_range (ComponentRequest := StubRequest)
              [] stack_garbage empty_heap)
    as (self & h' & H1 & H2).
  - reflexivity.
  - vm_compute. discriminate.
  - exists self, h'. split; [exact H1 |]. apply (H2 0). reflexivity.
Defined.

Lemma from_components_then_destructor_witness :
  exists self h',
    TriggerRecordHeader_from_components
      [stub Byte.x01 Byte.x02; stub Byte.x03 Byte.x04] stack_garbage empty_heap
    = Returns self h'
    /\ destructor self h' = Returns tt empty_heap.
Proof.
  apply (from_components_then_destructor
           [stub Byte.x01 Byte.x02; stub Byte.x03 Byte.x04]
           stack_garbage empty_heap).
  - reflexivity.
  - vm_compute. discriminate.
Defined.

(* ===================================================================== *)
(** * Ownership after moves and assignments; lifetimes *)
(* ===================================================================== *)

Lemma free_dead h b o :
  cells h !! b = None -> free (Addr b o) h = Undefined h.
Proof. intros H. unfold free. rewrite H. reflexivity. Qed.

(** The defaulted move operations copy the pointer and the flag and leave
    the source as it is: after moving from a record that owns a live block,
    the new object and the source both own it, and destroying the one and
    then the other frees the block twice, which is undefined behaviour. *)
Theorem move_leaves_two_owners (self other : TriggerRecordHeader) h b bs :
  alloc_ other = true -> data_arr_ other = Addr b 0 ->
  cells h !! b = Some bs ->
  (forall mv,
     mv = TriggerRecordHeader_move other \/ mv = operator_move_assign self other ->
     alloc_ (fst mv) = true /\ alloc_ (snd mv) = true
     /\ data_arr_ (fst mv) = Addr b 0 /\ data_arr_ (snd mv) = Addr b 0
     /\ exists h1,
          destructor (fst mv) h = Returns tt h1
          /\ destructor (snd mv) h1 = Undefined h1)
  /\ (exists h1,
        destructor other h = Returns tt h1
        /\ destructor (fst (TriggerRecordHeader_move other)) h1 = Undefined h1).
Proof.
  intros Hown Hp Hlive.
  assert (exists h1, free (Addr b 0) h = Returns tt h1
                     /\ free (Addr b 0) h1 = Undefined h1) as (h1 & Hf1 & Hf2).
  { eexists. split; [apply (free_live _ _ _ Hlive) |].
    apply free_dead. cbn [cells]. apply lookup_delete_eq. }
  split.
  - intros mv [-> | ->]; cbn [fst snd TriggerRecordHeader_move
      operator_move_assign alloc_ data_arr_]; rewrite ?Hown, ?Hp;
      (do 4 (split; [reflexivity |])); exists h1; unfold destructor;
      cbn [alloc_ data_arr_]; rewrite ?Hown, ?Hp; auto.
  - exists h1. unfold destructor. cbn [fst TriggerRecordHeader_move alloc_
      data_arr_]. rewrite Hown, Hp. auto.
Qed.

Lemma move_leaves_two_owners_witness :
  exists h1,
    destructor {| data_arr_ := Addr 0%nat 0; alloc_ := true |} two_in_one_heap
    = Returns tt h1
    /\ destructor
         (snd (TriggerRecordHeader_move
                 {| data_arr_ := Addr 0%nat 0; alloc_ := true |})) h1
       = Undefined h1.
Proof.
  destruct (proj1 (move_leaves_two_owners borrowing
                     {| data_arr_ := Addr 0%nat 0; alloc_ := true |}
                     two_in_one_heap 0%nat
                     (header_to_bytes two_in_one_header
                      ++ to_bytes (stub Byte.x0a Byte.x0b)
                      ++ to_bytes (stub Byte.x0c Byte.x0d))
                     eq_refl eq_refl eq_refl)
              (TriggerRecordHeader_move
                 {| data_arr_ := Addr 0%nat 0; alloc_ := true |})
              (or_introl eq_refl))
    as (_ & _ & _ & _ & h1 & H1 & H2).
  exists h1. exact (conj H1 H2).
Defined.

Section Lifetimes.

Context {ComponentRequest : Type} `{!TriviallyCopyable ComponentRequest}.

Implicit Types (h : heap) (self other : TriggerRecordHeader).

(** Copy assignment to an object that owns a block does not release it: the
    object gets a new block, the old one stays allocated with its bytes, the
    allocator is down by the size of the copy, and destroying the object
    afterwards still leaves the old block allocated. *)
Theorem copy_assignment_leaks_the_old_buffer
  (this : address) self (other_addr : address) other h size b0 bs0 :
  other_addr <> this ->
  alloc_ self = true -> data_arr_ self = Addr b0 0 ->
  cells h !! b0 = Some bs0 ->
  valid h other = true ->
  get_total_size_bytes other h = Returns size h -> size <= available h ->
  exists self' h' h'',
    operator_assign this self other_addr other h = Returns self' h'
    /\ alloc_ self' = true
    /\ data_arr_ self' <> data_arr_ self
    /\ cells h' !! b0 = Some bs0
    /\ available h' = available h - size
    /\ destructor self' h' = Returns tt h''
    /\ cells h'' !! b0 = Some bs0.
Proof.
  intros Hne Hown Hp Hlive Hvalid Hsize Hav.
  rewrite (operator_assign_spec this self other_addr other h size)
    by assumption.
  destruct (copy_of_valid h other size Hvalid Hsize Hav)
    as (hb & all & b & Hhb & Hsz & Hmax & Hall & Hb & Hcopy).
  unfold TriggerRecordHeader_copy. rewrite Hcopy.
  assert (b <> b0) as Hbb.
  { intros Heq. rewrite <- Heq, Hb, fresh_block in Hlive. discriminate. }
  eexists _, _, _. split; [reflexivity |].
  split; [reflexivity |].
  split; [rewrite Hp; cbn [data_arr_]; congruence |].
  split; [cbn [cells]; rewrite lookup_insert_ne by congruence; exact Hlive |].
  split; [reflexivity |].
  split.
  - unfold destructor. cbn [alloc_ data_arr_].
    apply free_live. cbn [cells]. apply lookup_insert_eq.
  - cbn [cells].
    rewrite lookup_delete_ne, lookup_insert_ne by congruence. exact Hlive.
Qed.

(** A record is its bytes: the [get_total_size_bytes()] bytes at
    [get_storage_location()] of a valid record, put anywhere in any heap and
    wrapped without a copy, are a valid record with the same header and the
    same element at every index below the count. *)
Theorem record_is_position_independent self h size all q h2 :
  valid h self = true ->
  get_total_size_bytes self h = Returns size h ->
  read h (get_storage_location self) size = Some all ->
  read h2 q size = Some all ->
  exists view hdr,
    TriggerRecordHeader_from_buffer q false h2 = Returns view h2
    /\ valid h2 view = true
    /\ get_header self h = Returns hdr h
    /\ get_header view h2 = Returns hdr h2
    /\ forall idx, 0 <= idx < num_requested_components hdr ->
         exists c, at_ self idx h = Returns c h
                   /\ at_ view idx h2 = Returns c h2.
Proof.
  intros (hb & all0 & Hhb & Hmax & Hall0)%valid_inv Hsize Hall Hall2.
  pose proof (count_bound hb) as Hn.
  rewrite (get_total_size_bytes_spec _ _ _ Hhb), size_of_count in Hsize by lia.
  injection Hsize as <-.
  unfold get_storage_location in Hall.
  change (field offsetof_num_requested_components 8 hb)
    with (num_requested_components (header_from_bytes hb)) in *.
  set (n := num_requested_components (header_from_bytes hb)) in *.
  pose proof (header_of_buffer _ _ _ _ _ Hall (proj1 Hn) Hhb) as Htake.
  set (view := {| data_arr_ := q; alloc_ := false |}).
  assert (read h2 (data_arr_ view) sizeof_TriggerRecordHeaderData = Some hb)
    as Hhb2.
  { rewrite Htake. cbn [view data_arr_].
    rewrite (read_prefix _ _ _ _ sizeof_TriggerRecordHeaderData Hall2);
      [reflexivity |].
    pose proof (total_size_ge n (proj1 Hn)).
    unfold sizeof_TriggerRecordHeaderData in *. lia. }
  exists view, (header_from_bytes hb).
  split; [reflexivity |].
  split.
  { unfold valid. rewrite Hhb2. cbv zeta. fold n.
    cbn [view data_arr_]. rewrite Hall2.
    apply andb_true_iff. split; [apply Z.ltb_lt; exact Hmax | reflexivity]. }
  split; [apply (get_header_spec _ _ _ Hhb) |].
  split; [apply (get_header_spec _ _ _ Hhb2) |].
  intros idx Hidx.
  pose proof (element_read _ _ _ _ idx Hall Hidx) as Hel.
  pose proof (element_read h2 view n all idx Hall2 Hidx) as Hel2.
  eexists. split; [apply (at_spec _ _ _ Hhb _ _ Hel) |].
  apply (at_spec _ _ _ Hhb2 _ _ Hel2).
Qed.

(** Every access through a record whose block is not live is undefined
    behaviour. *)
Lemma dangling_record self h b o :
  data_arr_ self = Addr b o -> cells h !! b = None ->
  get_header self h = Undefined h
  /\ get_total_size_bytes self h = Undefined h
  /\ (forall idx, at_ self idx h = Undefined h)
  /\ (forall m, mutate self m h = Undefined h).
Proof.
  intros Hp Hdead.
  assert (forall k n, read h (data_arr_ self +ₚ k) n = None) as Hr
    by (intros k n; rewrite Hp; cbn [ptr_add read]; rewrite Hdead; reflexivity).
  assert (forall k new, write h (data_arr_ self +ₚ k) new = None) as Hw
    by (intros k new; rewrite Hp; cbn [ptr_add write]; rewrite Hdead;
        reflexivity).
  assert (forall n k, load_uint n (header_ self +ₚ k) h = Undefined h) as Hl
    by (intros n k; unfold load_uint, bind, load_bytes, header_;
        rewrite Hr; reflexivity).
  assert (forall n k v, store_uint n (header_ self +ₚ k) v h = Undefined h)
    as Hs
    by (intros n k v; unfold store_uint, store_bytes, header_;
        rewrite Hw; reflexivity).
  split; [| split; [| split]].
  - unfold get_header, bind, load_bytes, header_.
    rewrite <- (ptr_add_0 (data_arr_ self)), Hr. reflexivity.
  - unfold get_total_size_bytes, bind. rewrite Hl. reflexivity.
  - intros idx. unfold at_, bind. rewrite Hl. reflexivity.
  - intros [v | v | v | bits | bit value | v | idx c]; cbn [mutate];
      try apply Hs.
    + unfold set_error_bit, bind, get_error_bits. rewrite Hl. reflexivity.
    + unfold bind, operator_index, bind. rewrite Hl. reflexivity.
Qed.

(** Lifetimes of the two ways to wrap a caller's buffer.  Once the caller
    frees the buffer, every access through the record that wrapped it without
    a copy is undefined behaviour, while the record that wrapped it with a
    copy still returns the header and the elements the buffer held. *)
Theorem freeing_the_wrapped_buffer b h size :
  valid h {| data_arr_ := Addr b 0; alloc_ := false |} = true ->
  get_total_size_bytes {| data_arr_ := Addr b 0; alloc_ := false |} h
  = Returns size h ->
  size <= available h ->
  exists view copy h1 h2 hdr,
    TriggerRecordHeader_from_buffer (Addr b 0) false h = Returns view h
    /\ TriggerRecordHeader_from_buffer (Addr b 0) true h = Returns copy h1
    /\ free (Addr b 0) h1 = Returns tt h2
    /\ get_header view h = Returns hdr h
    /\ get_header view h2 = Undefined h2
    /\ (forall idx, at_ view idx h2 = Undefined h2)
    /\ (forall m, mutate view m h2 = Undefined h2)
    /\ get_header copy h2 = Returns hdr h2
    /\ (forall idx, 0 <= idx < num_requested_components hdr ->
          exists c, at_ view idx h = Returns c h
                    /\ at_ copy idx h2 = Returns c h2).
Proof.
  intros Hvalid Hsize Hav.
  set (view := {| data_arr_ := Addr b 0; alloc_ := false |}) in *.
  destruct (copy_of_valid h view size Hvalid Hsize Hav)
    as (hb & all & b' & Hhb & Hsz & Hmax & Hall & Hb' & Hcopy).
  cbn [view data_arr_] in Hcopy, Hhb, Hall.
  pose proof (count_bound hb) as Hn.
  set (n := num_requested_components (header_from_bytes hb)) in *.
  assert (cells h !! b' = None) as Hfresh by (subst b'; apply fresh_block).
  destruct (cells h !! b) as [bs |] eqn:Hlive;
    [| cbn [read] in Hhb; rewrite Hlive in Hhb; discriminate].
  assert (b' <> b) as Hbb by (intros ->; congruence).
  set (copy := {| data_arr_ := Addr b' 0; alloc_ := true |}).
  set (h1 := Heap (<[b' := all]> (cells h)) (available h - size)) in *.
  assert (cells h1 !! b = Some bs) as Hlive1
    by (cbn [h1 cells]; rewrite lookup_insert_ne by congruence; exact Hlive).
  set (h2 := Heap (delete b (cells h1)) (available h1 + Z.of_nat (length bs))).
  assert (cells h2 !! b = None) as Hdead
    by (cbn [h2 cells]; apply lookup_delete_eq).
  assert (cells h2 !! b' = Some all) as Hcopied
    by (cbn [h2 h1 cells]; rewrite lookup_delete_ne by congruence;
        apply lookup_insert_eq).
  pose proof (read_length _ _ _ _ Hall) as Hlen. rewrite Hsz in Hlen, Hall.
  destruct (copied_reads (cells h2) (available h2) b' all n)
    as [Hall' Hhb']; [lia | exact Hlen |].
  assert (forall o k,
            read h2 (Addr b' o) k
            = read (Heap (<[b' := all]> (cells h2)) (available h2))
                (Addr b' o) k) as Hsame
    by (intros o k; apply read_agree; cbn [cells];
        rewrite lookup_insert_eq; exact Hcopied).
  rewrite <- Hsame in Hall', Hhb'.
  rewrite <- (header_of_buffer h (Addr b 0) n all hb Hall (proj1 Hn) Hhb)
    in Hhb'.
  destruct (dangling_record view h2 b 0 eq_refl Hdead)
    as (Hd1 & _ & Hd3 & Hd4).
  exists view, copy, h1, h2, (header_from_bytes hb).
  split; [reflexivity |]. split; [exact Hcopy |].
  split; [apply (free_live _ _ _ Hlive1) |].
  change (Addr b' 0) with (data_arr_ copy) in Hall', Hhb'.
  change (Addr b 0) with (data_arr_ view) in Hall, Hhb.
  clearbody h1 h2 copy.
  split; [apply (get_header_spec _ _ _ Hhb) |].
  split; [exact Hd1 |]. split; [exact Hd3 |]. split; [exact Hd4 |].
  split; [apply (get_header_spec _ _ _ Hhb') |].
  intros idx Hidx.
  pose proof (element_read _ _ _ _ idx Hall Hidx) as Hel.
  pose proof (element_read _ _ _ _ idx Hall' Hidx) as Hel'.
  eexists. split; [apply (at_spec _ _ _ Hhb _ _ Hel) |].
  apply (at_spec _ _ _ Hhb' _ _ Hel').
Qed.

End Lifetimes.

Lemma copy_assignment_leaks_the_old_buffer_witness :
  exists self' h' h'' bs0,
    operator_assign (ComponentRequest := StubRequest) 1%nat
      {| data_arr_ := Addr 0%nat 0; alloc_ := true |} 0%nat borrowing
      two_in_one_heap
    = Returns self' h'
    /\ destructor self' h' = Returns tt h''
    /\ cells h'' !! 0%nat = Some bs0.
Proof.
  destruct (copy_assignment_leaks_the_old_buffer (ComponentRequest := StubRequest)
              1%nat {| data_arr_ := Addr 0%nat 0; alloc_ := true |}
              0%nat borrowing two_in_one_heap 50 0%nat
              (header_to_bytes two_in_one_header
               ++ to_bytes (stub Byte.x0a Byte.x0b)
               ++ to_bytes (stub Byte.x0c Byte.x0d)))
    as (self' & h' & h'' & H1 & _ & _ & _ & _ & H6 & H7).
  - lia.
  - reflexivity.
  - reflexivity.
  - vm_compute. reflexivity.
  - vm_compute. reflexivity.
  - vm_compute. reflexivity.
  - vm_compute. discriminate.
  - exists self', h', h''. eexists. exact (conj H1 (conj H6 H7)).
Defined.

Lemma record_is_position_independent_witness :
  exists view hdr,
    TriggerRecordHeader_from_buffer (ComponentRequest := StubRequest)
      (Addr 0%nat 2) false
      (Heap {[ 0%nat := [Byte.xaa; Byte.xbb]
                        ++ header_to_bytes two_in_one_header
                        ++ to_bytes (stub Byte.x0a Byte.x0b) ]} 0)
    = Returns view
        (Heap {[ 0%nat := [Byte.xaa; Byte.xbb]
                          ++ header_to_bytes two_in_one_header
                          ++ to_bytes (stub Byte.x0a Byte.x0b) ]} 0)
    /\ get_header borrowing two_in_one_heap = Returns hdr two_in_one_heap
    /\ get_header view
         (Heap {[ 0%nat := [Byte.xaa; Byte.xbb]
                           ++ header_to_bytes two_in_one_header
                           ++ to_bytes (stub Byte.x0a Byte.x0b) ]} 0)
       = Returns hdr
           (Heap {[ 0%nat := [Byte.xaa; Byte.xbb]
                             ++ header_to_bytes two_in_one_header
                             ++ to_bytes (stub Byte.x0a Byte.x0b) ]} 0).
Proof.
  destruct (record_is_position_independent (ComponentRequest := StubRequest)
              borrowing two_in_one_heap 50
              (header_to_bytes two_in_one_header
               ++ to_bytes (stub Byte.x0a Byte.x0b))
              (Addr 0%nat 2)
              (Heap {[ 0%nat := [Byte.xaa; Byte.xbb]
                                ++ header_to_bytes two_in_one_header
                                ++ to_bytes (stub Byte.x0a Byte.x0b) ]} 0))
    as (view & hdr & H1 & _ & H3 & H4 & _).
  - vm_compute. reflexivity.
  - vm_compute. reflexivity.
  - vm_compute. reflexivity.
  - vm_compute. reflexivity.
  - exists view, hdr. exact (conj H1 (conj H3 H4)).
Defined.

Lemma freeing_the_wrapped_buffer_witness :
  exists view copy h1 h2 hdr,
    TriggerRecordHeader_from_buffer (ComponentRequest := StubRequest)
      (Addr 0%nat 0) false two_in_one_heap
    = Returns view two_in_one_heap
    /\ TriggerRecordHeader_from_buffer (ComponentRequest := StubRequest)
         (Addr 0%nat 0) true two_in_one_heap
       = Returns copy h1
    /\ free (Addr 0%nat 0) h1 = Returns tt h2
    /\ get_header view h2 = Undefined h2
    /\ get_header copy h2 = Returns hdr h2.
Proof.
  destruct (freeing_the_wrapped_buffer (ComponentRequest := StubRequest)
              0%nat two_in_one_heap 50)
    as (view & copy & h1 & h2 & hdr & H1 & H2 & H3 & _ & H5 & _ & _ & H8 & _).
  - vm_compute. reflexivity.
  - vm_compute. reflexivity.
  - vm_compute. discriminate.
  - exists view, copy, h1, h2, hdr.
    exact (conj H1 (conj H2 (conj H3 (conj H5 H8)))).
Defined.

(* ===================================================================== *)
(** * Numerals *)
(* ===================================================================== *)

Section Numerals.

Variable base : Z.
Hypothesis base_ge_2 : 2 <= base.

Lemma digits_from_value fuel : forall n acc,
  0 <= n < base ^ Z.of_nat fuel ->
  fold_left (fun a d => a * base + d) (digits_from fuel base n acc) 0
  = fold_left (fun a d => a * base + d) acc n.
Proof.
  induction fuel as [| fuel IH]; intros n acc Hn; cbn [digits_from].
  - change (base ^ Z.of_nat 0) with 1 in Hn. f_equal. lia.
  - rewrite Nat2Z.inj_succ, Z.pow_succ_r in Hn by lia.
    destruct (n <? base) eqn:Hlt.
    + cbn [fold_left]. f_equal.
    + apply Z.ltb_ge in Hlt. rewrite IH.
      * cbn [fold_left]. f_equal.
        rewrite (Z.div_mod n base) at 3 by lia. lia.
      * split; [apply Z.div_pos; lia |].
        apply Z.div_lt_upper_bound; lia.
Qed.

(** The digits of a number stand for that number. *)
Lemma digits_value_digits n :
  0 <= n -> digits_value base (digits base n) = n.
Proof.
  intros Hn. unfold digits_value, digits. rewrite digits_from_value.
  - reflexivity.
  - split; [exact Hn |].
    rewrite Nat2Z.inj_succ, Z2Nat.id by apply Z.log2_nonneg.
    destruct (Z.eq_dec n 0) as [-> | Hne].
    + cbn. lia.
    + pose proof (Z.log2_spec n ltac:(lia)) as [_ Hup].
      eapply Z.lt_le_trans; [exact Hup |].
      apply Z.pow_le_mono_l. lia.
Qed.

Lemma digits_from_range fuel : forall n acc,
  0 <= n ->
  Forall (fun d => 0 <= d < base) acc ->
  Forall (fun d => 0 <= d < base) (digits_from fuel base n acc).
Proof.
  induction fuel as [| fuel IH]; intros n acc Hn Hacc; cbn [digits_from].
  - exact Hacc.
  - destruct (n <? base) eqn:Hlt.
    + apply Z.ltb_lt in Hlt. constructor; [lia | exact Hacc].
    + apply IH; [apply Z.div_pos; lia |].
      constructor; [apply Z.mod_pos_bound; lia | exact Hacc].
Qed.

Lemma digits_range n :
  0 <= n -> Forall (fun d => 0 <= d < base) (digits base n).
Proof. intros Hn. apply digits_from_range; [exact Hn | constructor]. Qed.

Lemma digits_from_nonempty fuel : forall n acc,
  acc <> [] -> digits_from fuel base n acc <> [].
Proof.
  induction fuel as [| fuel IH]; intros n acc Hacc; cbn [digits_from].
  - exact Hacc.
  - destruct (n <? base); [discriminate | apply IH; discriminate].
Qed.

Lemma digits_nonempty n : digits base n <> [].
Proof.
  unfold digits. cbn [digits_from].
  destruct (n <? base); [discriminate | apply digits_from_nonempty; discriminate].
Qed.

End Numerals.

Lemma digit_chars_NoDup : List.NoDup digit_chars.
Proof.
  unfold digit_chars. cbn [list_ascii_of_string].
  repeat (constructor; [cbn [In]; intuition discriminate |]). constructor.
Qed.

Lemma digit_char_inj a b :
  0 <= a < 16 -> 0 <= b < 16 -> digit_char a = digit_char b -> a = b.
Proof.
  intros Ha Hb Heq. unfold digit_char in Heq.
  pose proof (proj1 (List.NoDup_nth digit_chars "0"%char) digit_chars_NoDup
                (Z.to_nat a) (Z.to_nat b)) as Hinj.
  change (length digit_chars) with 16%nat in Hinj.
  specialize (Hinj ltac:(lia) ltac:(lia) Heq). lia.
Qed.

Lemma digit_char_In d : 0 <= d < 16 -> In (digit_char d) digit_chars.
Proof.
  intros Hd. unfold digit_char. apply List.nth_In.
  change (length digit_chars) with 16%nat. lia.
Qed.

Lemma map_inj_on {A B} (f : A -> B) (P : A -> Prop) :
  (forall x y, P x -> P y -> f x = f y -> x = y) ->
  forall l1 l2, Forall P l1 -> Forall P l2 -> map f l1 = map f l2 -> l1 = l2.
Proof.
  intros Hf l1. induction l1 as [| x l1 IH]; intros [| y l2] H1 H2 Heq;
    try discriminate; [reflexivity |].
  inversion H1; inversion H2; subst. injection Heq as Hxy Hrest.
  f_equal; [apply Hf; assumption | apply IH; assumption].
Qed.

Section NumeralChars.

Variable base : Z.
Hypothesis base_range : 2 <= base <= 16.

(** A numeral consists of digit characters, has at least one, and
    determines the number. *)
Lemma numeral_chars n :
  0 <= n -> Forall (fun c => In c digit_chars) (numeral base n).
Proof.
  intros Hn. unfold numeral. apply Forall_map.
  eapply Forall_impl; [apply (digits_range base); lia |].
  intros d Hd. cbv beta in Hd. apply digit_char_In. lia.
Qed.

Lemma numeral_nonempty n : numeral base n <> [].
Proof.
  unfold numeral. pose proof (digits_nonempty base n).
  destruct (digits base n); [congruence | discriminate].
Qed.

Lemma numeral_inj a b :
  0 <= a -> 0 <= b -> numeral base a = numeral base b -> a = b.
Proof.
  intros Ha Hb Heq.
  apply (map_inj_on digit_char (fun d => 0 <= d < base)) in Heq.
  - rewrite <- (digits_value_digits base ltac:(lia) a Ha),
      <- (digits_value_digits base ltac:(lia) b Hb), Heq. reflexivity.
  - intros x y Hx Hy. apply digit_char_inj; lia.
  - apply digits_range; lia.
  - apply digits_range; lia.
Qed.

End NumeralChars.

(** Two texts that go on with the same character after a run of characters
    of one kind, the character not being of that kind, have the same run and
    the same rest. *)
Lemma delimited_inj (P : ascii -> Prop) c :
  ~ P c ->
  forall d1 d2 r1 r2,
    Forall P d1 -> Forall P d2 ->
    d1 ++ c :: r1 = d2 ++ c :: r2 -> d1 = d2 /\ r1 = r2.
Proof.
  intros Hc d1. induction d1 as [| x d1 IH]; intros [| y d2] r1 r2 H1 H2 Heq;
    cbn [app] in Heq.
  - injection Heq as <-. auto.
  - injection Heq as <- _. inversion H2; subst. contradiction.
  - injection Heq as -> _. inversion H1; subst. contradiction.
  - injection Heq as <- Hrest. inversion H1; inversion H2; subst.
    destruct (IH d2 r1 r2) as [-> ->]; auto.
Qed.

Lemma comma_not_digit : ~ In ","%char digit_chars.
Proof. cbn. intuition discriminate. Qed.

Lemma space_not_digit : ~ In " "%char digit_chars.
Proof. cbn. intuition discriminate. Qed.

Lemma separated_inj (P : ascii -> Prop) c (s : string) d1 d2 r1 r2 :
  ~ P c -> Forall P d1 -> Forall P d2 ->
  d1 ++ list_ascii_of_string (String c s) ++ r1
  = d2 ++ list_ascii_of_string (String c s) ++ r2 ->
  d1 = d2 /\ r1 = r2.
Proof.
  intros Hc H1 H2 Heq. cbn [list_ascii_of_string app] in Heq.
  destruct (delimited_inj P c Hc _ _ _ _ H1 H2 Heq) as [-> Hrest].
  split; [reflexivity |]. exact (app_inv_head _ _ _ Hrest).
Qed.

Lemma radix_range b : 2 <= ios.radix b <= 16.
Proof. destruct b; cbn; lia. Qed.

(* ===================================================================== *)
(** * operator<< *)
(* ===================================================================== *)

Lemma GeoID_operator_shl_content o id :
  content (GeoID_operator_shl o id)
  = content o
    ++ list_ascii_of_string "APA: "
    ++ numeral (ios.radix (basefield o)) (GeoID.apa_number id)
    ++ list_ascii_of_string ", link: "
    ++ numeral (ios.radix (basefield o)) (GeoID.link_number id).
Proof.
  unfold GeoID_operator_shl, put_unsigned, put_chars.
  cbn [content basefield]. rewrite <- !app_assoc. reflexivity.
Qed.

(** [operator<<] for GeoID appends to the stream, in the base the stream is
    in and without changing it, and what it appends determines the GeoID: on
    the same stream two GeoIDs (with fields of their unsigned type) that print
    alike are equal. *)
Theorem GeoID_operator_shl_is_lossless o (a b : GeoID.GeoID) :
  0 <= GeoID.apa_number a -> 0 <= GeoID.link_number a ->
  0 <= GeoID.apa_number b -> 0 <= GeoID.link_number b ->
  basefield (GeoID_operator_shl o a) = basefield o
  /\ (exists text, content (GeoID_operator_shl o a) = content o ++ text)
  /\ (content (GeoID_operator_shl o a) = content (GeoID_operator_shl o b) ->
      a = b).
Proof.
  intros Ha0 Ha1 Hb0 Hb1.
  split; [reflexivity |].
  split; [eexists; apply GeoID_operator_shl_content |].
  rewrite !GeoID_operator_shl_content. intros Heq.
  pose proof (radix_range (basefield o)) as Hr.
  apply app_inv_head, app_inv_head in Heq.
  apply (separated_inj (fun c => In c digit_chars)) in Heq as [H0 H1];
    [| exact comma_not_digit | apply numeral_chars; assumption ..].
  apply numeral_inj in H0; try assumption.
  apply numeral_inj in H1; try assumption.
  destruct a, b. cbn in *. congruence.
Qed.

Lemma GeoID_operator_shl_is_lossless_witness :
  basefield (GeoID_operator_shl hex_stream (GeoID.mk 255 16))
  = basefield hex_stream
  /\ (exists text,
        content (GeoID_operator_shl hex_stream (GeoID.mk 255 16))
        = content hex_stream ++ text)
  /\ (content (GeoID_operator_shl hex_stream (GeoID.mk 255 16))
      = content (GeoID_operator_shl hex_stream (GeoID.mk 25 516)) ->
      GeoID.mk 255 16 = GeoID.mk 25 516).
Proof.
  apply (GeoID_operator_shl_is_lossless hex_stream
           (GeoID.mk 255 16) (GeoID.mk 25 516)); cbn; lia.
Defined.











(* ===================================================================== *)
(** * MemoryAllocationFailed::what *)
(* ===================================================================== *)

Lemma to_string_int_chars v :
  Forall (fun c => In c digit_chars \/ c = "-"%char) (to_string_int v).
Proof.
  assert (2 <= 10 <= 16) as R10 by lia.
  assert (forall n, 0 <= n ->
            Forall (fun c => In c digit_chars \/ c = "-"%char) (numeral 10 n))
    as Hnum.
  { intros n Hn. eapply Forall_impl; [apply (numeral_chars 10 R10 n Hn) |].
    intros c Hc. left. exact Hc. }
  unfold to_string_int. destruct (v <? 0) eqn:Hv.
  - constructor; [right; reflexivity | apply Hnum; lia].
  - apply Hnum. lia.
Qed.

Lemma to_string_int_inj a b : to_string_int a = to_string_int b -> a = b.
Proof.
  assert (2 <= 10 <= 16) as R10 by lia.
  assert (forall n rest, 0 <= n -> numeral 10 n <> "-"%char :: rest) as Hminus.
  { intros n rest Hn Heq.
    pose proof (numeral_chars 10 R10 n Hn) as Hc. rewrite Heq in Hc.
    inversion Hc as [| c l Hin _]; subst. cbn in Hin. intuition discriminate. }
  unfold to_string_int.
  destruct (a <? 0) eqn:Ha; destruct (b <? 0) eqn:Hb; intros Heq.
  - injection Heq as Heq. apply (numeral_inj 10 R10) in Heq; lia.
  - symmetry in Heq. apply Hminus in Heq; [contradiction | lia].
  - apply Hminus in Heq; [contradiction | lia].
  - apply (numeral_inj 10 R10) in Heq; lia.
Qed.

(** The message of MemoryAllocationFailed tells the line and the number of
    bytes: for one file name, two messages are equal exactly when they were
    built from the same line and the same byte count. *)
Theorem MemoryAllocationFailed_what_is_lossless m_file line1 bytes1 line2 bytes2 :
  0 <= bytes1 -> 0 <= bytes2 ->
  MemoryAllocationFailed_what m_file line1 bytes1
  = MemoryAllocationFailed_what m_file line2 bytes2
  <-> line1 = line2 /\ bytes1 = bytes2.
Proof.
  intros Hb1 Hb2. split; [| intros [-> ->]; reflexivity].
  unfold MemoryAllocationFailed_what, to_string_size_t.
  intros Heq. assert (2 <= 10 <= 16) as R10 by lia.
  apply app_inv_head in Heq.
  cbn [list_ascii_of_string app] in Heq. injection Heq as Heq.
  apply (delimited_inj (fun c => In c digit_chars \/ c = "-"%char)) in Heq
    as [Hl Heq];
    [| cbn; intuition discriminate | apply to_string_int_chars ..].
  split; [apply to_string_int_inj, Hl |].
  injection Heq as Heq.
  apply (delimited_inj (fun c => In c digit_chars)) in Heq as [Hb _];
    [| exact space_not_digit | apply (numeral_chars 10 R10); assumption ..].
  apply (numeral_inj 10 R10); assumption.
Qed.

Lemma MemoryAllocationFailed_what_is_lossless_witness :
  MemoryAllocationFailed_what "TriggerRecordHeader.hpp" 85 1048
  = MemoryAllocationFailed_what "TriggerRecordHeader.hpp" 112 1048
  <-> 85 = 112 /\ 1048 = 1048.
Proof.
  apply (MemoryAllocationFailed_what_is_lossless "TriggerRecordHeader.hpp"
           85 1048 112 1048); lia.
Defined.

(* ===================================================================== *)
(** * Getters, and the copy constructor at the edges *)
(* ===================================================================== *)

Section GettersAndCopies.

Context {ComponentRequest : Type} `{!TriviallyCopyable ComponentRequest}.

Implicit Types (h : heap) (self other : TriggerRecordHeader).

Lemma get_header_Returns self h hdr h' :
  get_header self h = Returns hdr h' ->
  h' = h
  /\ exists hb,
       read h (data_arr_ self) sizeof_TriggerRecordHeaderData = Some hb
       /\ hdr = header_from_bytes hb.
Proof.
  intros (bs & h1 & Hl & Hr)%bind_Returns.
  apply load_bytes_Returns in Hl as [-> Hread].
  injection Hr as <- <-. eauto.
Qed.

(** The getters of the class read the members of the struct [get_header()]
    returns, each a value of the member's type; [get_error_bit(k)] is bit [k]
    of the error word, and [get_total_size_bytes()] is computed from the
    count in [size_t] arithmetic. *)
Theorem getters_agree_with_get_header self h hdr :
  get_header self h = Returns hdr h ->
  get_trigger_number self h = Returns (trigger_number hdr) h
  /\ get_trigger_timestamp self h = Returns (trigger_timestamp hdr) h
  /\ get_num_requested_components self h
     = Returns (num_requested_components hdr) h
  /\ get_run_number self h = Returns (run_number hdr) h
  /\ get_error_bits self h = Returns (error_bits hdr) h
  /\ get_trigger_type self h = Returns (trigger_type hdr) h
  /\ (forall k, 0 <= k < 32 ->
        get_error_bit self k h = Returns (Z.testbit (error_bits hdr) k) h)
  /\ get_total_size_bytes self h
     = Returns ((num_requested_components hdr * sizeof_ComponentRequest
                 mod 2 ^ 64 + sizeof_TriggerRecordHeaderData) mod 2 ^ 64) h
  /\ 0 <= trigger_number hdr < 2 ^ 64
  /\ 0 <= trigger_timestamp hdr < 2 ^ 64
  /\ 0 <= num_requested_components hdr < 2 ^ 64
  /\ 0 <= run_number hdr < 2 ^ 32
  /\ 0 <= error_bits hdr < 2 ^ 32
  /\ 0 <= trigger_type hdr < 2 ^ 16.
Proof.
  intros (_ & hb & Hhb & ->)%get_header_Returns.
  split; [apply (get_trigger_number_spec _ _ _ Hhb) |].
  split; [apply (get_trigger_timestamp_spec _ _ _ Hhb) |].
  split; [apply (get_num_requested_components_spec _ _ _ Hhb) |].
  split; [apply (get_run_number_spec _ _ _ Hhb) |].
  split; [apply (get_error_bits_spec _ _ _ Hhb) |].
  split; [apply (get_trigger_type_spec _ _ _ Hhb) |].
  split.
  { intros k Hk. unfold get_error_bit, bind.
    rewrite (get_error_bits_spec _ _ _ Hhb). unfold bitset_test.
    replace ((0 <=? k) && (k <? 32)) with true by lia. reflexivity. }
  split; [apply (get_total_size_bytes_spec _ _ _ Hhb) |].
  split; [apply (field_bound offsetof_trigger_number 8) |].
  split; [apply (field_bound offsetof_trigger_timestamp 8) |].
  split; [apply (field_bound offsetof_num_requested_components 8) |].
  split; [apply (field_bound offsetof_run_number 4) |].
  split; [apply (field_bound offsetof_error_bits 4) |].
  apply (field_bound offsetof_trigger_type 2).
Qed.


(** The copy of a valid record is a valid record on a block of exactly its
    total size, every index from the count on is outside that block, and
    destroying the copy gives back the heap of before the copy. *)
Theorem copy_builds_an_exact_record other h size :
  valid h other = true ->
  get_total_size_bytes other h = Returns size h -> size <= available h ->
  exists copy h' b bytes hdr,
    TriggerRecordHeader_copy other h = Returns copy h'
    /\ get_storage_location copy = Addr b 0
    /\ cells h' !! b = Some bytes
    /\ Z.of_nat (length bytes) = size
    /\ valid h' copy = true
    /\ get_header copy h' = Returns hdr h'
    /\ (forall idx, num_requested_components hdr <= idx ->
          at_ copy idx h' = Undefined h')
    /\ destructor copy h' = Returns tt h.
Proof.
  intros Hvalid Hsize Hav.
  destruct (copy_of_valid h other size Hvalid Hsize Hav)
    as (hb & all & b & Hhb & Hsz & Hmax & Hall & Hb & Hcopy).
  unfold TriggerRecordHeader_copy. rewrite Hcopy.
  pose proof (count_bound hb) as Hn.
  set (n := num_requested_components (header_from_bytes hb)) in *.
  pose proof (read_length _ _ _ _ Hall) as Hlen.
  assert (Hall0 := Hall). rewrite Hsz in Hall0.
  destruct (copied_reads (cells h) (available h - size) b all n)
    as [Hall' Hhb']; [lia | lia |].
  rewrite <- (header_of_buffer _ _ _ _ _ Hall0 (proj1 Hn) Hhb) in Hhb'.
  set (copy := {| data_arr_ := Addr b 0; alloc_ := true |}).
  set (h' := Heap _ _) in *.
  assert (cells h' !! b = Some all) as Hblock by apply lookup_insert_eq.
  exists copy, h', b, all, (header_from_bytes hb).
  split; [reflexivity |]. split; [reflexivity |]. split; [exact Hblock |].
  split; [exact Hlen |].
  split.
  { unfold valid. cbn [copy data_arr_]. rewrite Hhb'. cbv zeta. fold n.
    rewrite Hall'. apply andb_true_iff.
    split; [apply Z.ltb_lt; lia | reflexivity]. }
  split; [apply (get_header_spec h' copy hb Hhb') |].
  split.
  - intros idx Hidx.
    apply (at_outside_the_block copy h' hb idx Hhb').
    subst copy h'. unfold component_ptr, header_. cbn [data_arr_ ptr_add].
    rewrite read_block. apply slice_None.
    pose proof sizeof_ComponentRequest_pos.
    unfold total_size in Hsz. fold n in Hidx. nia.
  - unfold destructor. subst copy. cbn [alloc_ data_arr_].
    rewrite (free_live h' b all Hblock). f_equal.
    subst h'. cbn [cells available].
    rewrite delete_insert_id by (subst b; apply fresh_block).
    replace (available h - size + Z.of_nat (length all)) with (available h)
      by lia.
    apply heap_eta.
Qed.


End GettersAndCopies.

Lemma getters_agree_with_get_header_witness :
  get_run_number borrowing two_in_one_heap
  = Returns (run_number two_in_one_header) two_in_one_heap
  /\ get_total_size_bytes (ComponentRequest := StubRequest) borrowing
       two_in_one_heap
     = Returns 50 two_in_one_heap.
Proof.
  destruct (getters_agree_with_get_header (ComponentRequest := StubRequest)
              borrowing two_in_one_heap two_in_one_header)
    as (_ & _ & _ & H4 & _ & _ & _ & H8 & _).
  - vm_compute. reflexivity.
  - exact (conj H4 H8).
Defined.

Lemma copy_builds_an_exact_record_witness :
  exists copy h',
    TriggerRecordHeader_copy (ComponentRequest := StubRequest) borrowing
      two_in_one_heap
    = Returns copy h'
    /\ valid (ComponentRequest := StubRequest) h' copy = true
    /\ at_ (ComponentRequest := StubRequest) copy 1 h' = Undefined h'
    /\ destructor copy h' = Returns tt two_in_one_heap.
Proof.
  destruct (copy_builds_an_exact_record (ComponentRequest := StubRequest)
              borrowing two_in_one_heap 50)
    as (copy & h' & b & bytes & hdr & H1 & _ & _ & _ & H5 & H6 & H7 & H8).
  - vm_compute. reflexivity.
  - vm_compute. reflexivity.
  - vm_compute. discriminate.
  - exists copy, h'. split; [exact H1 |]. split; [exact H5 |].
    split; [| exact H8].
    apply H7.
    assert (get_header copy h' = Returns two_in_one_header h') as Hh.
    { vm_compute in H1. injection H1 as <- <-. vm_compute. reflexivity. }
    rewrite Hh in H6. injection H6 as <-. vm_compute. discriminate.
Defined.

